(** * LogAnalyzer: the log-analysis engine of [app.py]

    A shallow embedding of the class [LogAnalyzer] ([app.py], lines 25-118)
    and of the fragment of Python's [re] and [str] it relies on.

    Text.  A Python [str] is a sequence of code points.  Here a text is a
    [list ascii]; the 256 values of [ascii] stand for the code points
    U+0000..U+00FF, and the character classes below ([\d], [\w], [\s], the
    case folding used under [(?i)], the set stripped by [str.strip]) are
    Python 3's on exactly these code points.  [analyze_file] is modelled
    after the [decode] of line 94: it receives the lines as text.

    Integers.  Python's [int] is unbounded: counters, line numbers and
    frequencies are in [Z]. *)

From Stdlib Require Import ZArith Ascii String List Bool Lia.
From stdpp Require Import gmap strings list fin_maps.
From stdpp Require Import sorting.

Local Open Scope Z_scope.

(** ** Text *)

Abbreviation str := (list ascii).

(** String literals of the source are written as Rocq strings. *)
Coercion list_ascii_of_string : string >-> list.

Definition ord (c : ascii) : N := N_of_ascii c.

Definition in_range (lo hi : N) (c : ascii) : bool :=
  ((lo <=? ord c) && (ord c <=? hi))%N.

(** [\d]: the decimal digits (category Nd); below U+0100 these are 0-9. *)
Definition is_digit (c : ascii) : bool := in_range 48 57 c.

(** [\s] and the characters removed by [str.strip()]: Unicode white space;
    below U+0100 these are U+0009-000D, U+001C-0020, U+0085 and U+00A0. *)
Definition is_space (c : ascii) : bool :=
  in_range 9 13 c || in_range 28 32 c || (ord c =? 133)%N || (ord c =? 160)%N.

(** [\w]: alphanumeric characters ([str.isalnum]) and the underscore. *)
Definition is_word (c : ascii) : bool :=
  in_range 48 57 c || in_range 65 90 c || (ord c =? 95)%N || in_range 97 122 c
  || (ord c =? 170)%N || in_range 178 179 c || (ord c =? 181)%N
  || in_range 185 186 c || in_range 188 190 c
  || in_range 192 214 c || in_range 216 246 c || in_range 248 255 c.

(** Simple lower-casing of a code point, as used by [re] under [(?i)]. *)
Definition unicode_tolower (c : ascii) : ascii :=
  if in_range 65 90 c || (in_range 192 222 c && negb (ord c =? 215)%N)
  then ascii_of_N (ord c + 32) else c.

Definition newline : ascii := "010"%char.

(** [str.strip()] with no argument: white space is dropped at both ends. *)
Fixpoint lstrip (s : str) : str :=
  match s with
  | c :: s' => if is_space c then lstrip s' else s
  | [] => []
  end.
Definition rstrip (s : str) : str := rev (lstrip (rev s)).
Definition strip (s : str) : str := rstrip (lstrip s).

(** Truth value of [x] in [if x:] for [x] a [str] or [None]. *)
Definition truthy (x : option str) : bool :=
  match x with
  | Some (_ :: _) => true
  | _ => false
  end.

(** ** The fragment of [re] used by the analyzer *)

Module Re.

Inductive cclass : Type :=
| Digit                     (* \d *)
| Space                     (* \s *)
| Dot.                      (* .  (no DOTALL: anything but a newline) *)

Definition in_class (k : cclass) (c : ascii) : bool :=
  match k with
  | Digit => is_digit c
  | Space => is_space c
  | Dot => negb (Ascii.eqb c newline)
  end.

Inductive regex : Type :=
| Eps
| Chr (c : ascii)           (* a literal character *)
| Cls (k : cclass)
| Seq (r1 r2 : regex)
| Alt (r1 r2 : regex)       (* r1|r2, r1 tried first *)
| Star (k : cclass)         (* k*, greedy *)
| WordB                     (* \b *)
| EndS.                     (* $  (no MULTILINE) *)

(** A literal word. *)
Fixpoint lit (w : str) : regex :=
  match w with
  | [] => Eps
  | c :: w' => Seq (Chr c) (lit w')
  end.

(** [k+] *)
Definition Plus (k : cclass) : regex := Seq (Cls k) (Star k).

(** [r{n}] *)
Fixpoint rep_exact (r : regex) (n : nat) : regex :=
  match n with
  | O => Eps
  | S n' => Seq r (rep_exact r n')
  end.

(** [r{0,n}], greedy: one more [r] is tried before stopping. *)
Fixpoint rep_upto (r : regex) (n : nat) : regex :=
  match n with
  | O => Eps
  | S n' => Alt (Seq r (rep_upto r n')) Eps
  end.

(** [r{lo,hi}] *)
Definition Rep (r : regex) (lo hi : nat) : regex :=
  Seq (rep_exact r lo) (rep_upto r (hi - lo)).

(** [r1|r2|...|rn] *)
Fixpoint alts (rs : list regex) : regex :=
  match rs with
  | [] => Eps
  | [r] => r
  | r :: rs' => Alt r (alts rs')
  end.

(** A position in the subject: the characters before it, nearest first,
    and the characters after it. *)

Definition head_is_word (s : str) : bool :=
  match s with
  | c :: _ => is_word c
  | [] => false
  end.

(** [\b]: exactly one of the two neighbours is a word character. *)
Definition at_boundary (b a : str) : bool :=
  xorb (head_is_word b) (head_is_word a).

(** [$]: at the end, or just before a newline that ends the subject. *)
Definition at_end (a : str) : bool :=
  match a with
  | [] => true
  | [c] => Ascii.eqb c newline
  | _ => false
  end.

(** Comparison of a subject character [x] with the literal [c]. *)
Definition chr_eq (ic : bool) (c x : ascii) : bool :=
  if ic then Ascii.eqb (unicode_tolower x) (unicode_tolower c)
  else Ascii.eqb x c.

Section Matcher.
Context {A : Type}.
Variable ic : bool.       (* the (?i) flag *)

(** The backtracking loop of a greedy [k*]: take one more character when
    possible, and give it back when the rest of the pattern fails. *)
Fixpoint star_k (p : ascii -> bool) (b a : str)
    (k : str -> str -> option A) : option A :=
  match a with
  | c :: a' =>
      if p c then
        match star_k p (c :: b) a' k with
        | Some x => Some x
        | None => k b a
        end
      else k b a
  | [] => k b a
  end.

(** [mtch r b a k]: match [r] at position [(b, a)], then run the rest of
    the pattern [k] from where [r] stopped; the first success wins. *)
Fixpoint mtch (r : regex) (b a : str)
    (k : str -> str -> option A) : option A :=
  match r with
  | Eps => k b a
  | Chr c =>
      match a with
      | x :: a' => if chr_eq ic c x then k (x :: b) a' else None
      | [] => None
      end
  | Cls cl =>
      match a with
      | x :: a' => if in_class cl x then k (x :: b) a' else None
      | [] => None
      end
  | Seq r1 r2 => mtch r1 b a (fun b' a' => mtch r2 b' a' k)
  | Alt r1 r2 =>
      match mtch r1 b a k with
      | Some x => Some x
      | None => mtch r2 b a k
      end
  | Star cl => star_k (in_class cl) b a k
  | WordB => if at_boundary b a then k b a else None
  | EndS => if at_end a then k b a else None
  end.
End Matcher.

(** The match object: the subject and the span of the match. *)
Record Match : Type := { m_string : str; m_start : nat; m_end : nat }.

(** [m.group(0)] is [m.string[m.start():m.end()]]. *)
Definition group0 (m : Match) : str :=
  take (m_end m - m_start m) (drop (m_start m) (m_string m)).

(** [re.search]: the start positions are tried from left to right. *)
Fixpoint search_from (ic : bool) (r : regex) (s b a : str) : option Match :=
  match mtch ic r b a (fun b' _ => Some (length b')) with
  | Some e => Some {| m_string := s; m_start := length b; m_end := e |}
  | None =>
      match a with
      | [] => None
      | c :: a' => search_from ic r s (c :: b) a'
      end
  end.

Definition search (ic : bool) (r : regex) (s : str) : option Match :=
  search_from ic r s [] s.

End Re.

Import Re.

(** ** The patterns of [analyze_line] *)

(** [\b(?:\d{1,3}\.){3}\d{1,3}\b] (line 45) *)
Definition digits13 : regex := Rep (Cls Digit) 1 3.
Definition ip_re : regex :=
  Seq WordB
    (Seq (rep_exact (Seq digits13 (Chr ".")) 3)
       (Seq digits13 WordB)).

(** [(?i)(union\s+select|select.*from|drop\s+table|--\s*$)] (line 53) *)
Definition sql_re : regex :=
  alts [ Seq (lit "union") (Seq (Plus Space) (lit "select"));
         Seq (lit "select") (Seq (Star Dot) (lit "from"));
         Seq (lit "drop") (Seq (Plus Space) (lit "table"));
         Seq (lit "--") (Seq (Star Space) EndS) ].

(** [(?i)(<script>|alert\(|onload=|onerror=|javascript:)] (line 62) *)
Definition xss_words : list string :=
  ["<script>"; "alert("; "onload="; "onerror="; "javascript:"]%string.
Definition xss_re : regex :=
  alts (map (fun w : string => lit w) xss_words).

(** [(?i)(failed login|authentication failure|invalid password)] (line 81) *)
Definition brute_words : list string :=
  ["failed login"; "authentication failure"; "invalid password"]%string.
Definition brute_re : regex :=
  alts (map (fun w : string => lit w) brute_words).

(** ** The analyzer *)

(** An entry of [attacks['sql_injection']], [attacks['xss']] or
    [attacks['brute_force']]. *)
Record Event : Type := {
  ev_line : Z;
  ev_ip : option str;
  ev_content : str
}.

(** An entry of [attacks['ddos']]. *)
Record DDoSEvent : Type := {
  dd_line : Z;
  dd_ip : option str;
  dd_count : Z
}.

(** [self.stats] *)
Record Stats : Type := {
  total_attacks : Z;
  sql_injection_count : Z;
  xss_count : Z;
  ddos_count : Z;
  brute_force_count : Z;
  unique_ips : gset str
}.

(** [self.attacks] *)
Record Attacks : Type := {
  sql_injection : list Event;
  xss : list Event;
  ddos : list DDoSEvent;
  brute_force : list Event
}.

Record LogAnalyzer : Type := {
  stats : Stats;
  ip_frequency : gmap str Z;
  attacks : Attacks
}.

(** [LogAnalyzer.__init__] *)
Definition __init__ : LogAnalyzer :=
  {| stats := {| total_attacks := 0; sql_injection_count := 0; xss_count := 0;
                 ddos_count := 0; brute_force_count := 0; unique_ips := ∅ |};
     ip_frequency := ∅;
     attacks := {| sql_injection := []; xss := []; ddos := [];
                   brute_force := [] |} |}.

(** Field updates. *)
Definition set_stats (f : Stats -> Stats) (self : LogAnalyzer) : LogAnalyzer :=
  {| stats := f (stats self); ip_frequency := ip_frequency self;
     attacks := attacks self |}.
Definition set_ip_frequency (d : gmap str Z) (self : LogAnalyzer) : LogAnalyzer :=
  {| stats := stats self; ip_frequency := d; attacks := attacks self |}.
Definition set_attacks (f : Attacks -> Attacks) (self : LogAnalyzer) : LogAnalyzer :=
  {| stats := stats self; ip_frequency := ip_frequency self;
     attacks := f (attacks self) |}.

Definition add_unique_ip (ip : str) (st : Stats) : Stats :=
  {| total_attacks := total_attacks st;
     sql_injection_count := sql_injection_count st;
     xss_count := xss_count st; ddos_count := ddos_count st;
     brute_force_count := brute_force_count st;
     unique_ips := {[ ip ]} ∪ unique_ips st |}.
Definition incr_sql (st : Stats) : Stats :=
  {| total_attacks := total_attacks st;
     sql_injection_count := sql_injection_count st + 1;
     xss_count := xss_count st; ddos_count := ddos_count st;
     brute_force_count := brute_force_count st;
     unique_ips := unique_ips st |}.
Definition incr_xss (st : Stats) : Stats :=
  {| total_attacks := total_attacks st;
     sql_injection_count := sql_injection_count st;
     xss_count := xss_count st + 1; ddos_count := ddos_count st;
     brute_force_count := brute_force_count st;
     unique_ips := unique_ips st |}.
Definition incr_ddos (st : Stats) : Stats :=
  {| total_attacks := total_attacks st;
     sql_injection_count := sql_injection_count st;
     xss_count := xss_count st; ddos_count := ddos_count st + 1;
     brute_force_count := brute_force_count st;
     unique_ips := unique_ips st |}.
Definition incr_brute (st : Stats) : Stats :=
  {| total_attacks := total_attacks st;
     sql_injection_count := sql_injection_count st;
     xss_count := xss_count st; ddos_count := ddos_count st;
     brute_force_count := brute_force_count st + 1;
     unique_ips := unique_ips st |}.
Definition set_total (t : Z) (st : Stats) : Stats :=
  {| total_attacks := t;
     sql_injection_count := sql_injection_count st;
     xss_count := xss_count st; ddos_count := ddos_count st;
     brute_force_count := brute_force_count st;
     unique_ips := unique_ips st |}.

Definition append_sql (e : Event) (a : Attacks) : Attacks :=
  {| sql_injection := sql_injection a ++ [e]; xss := xss a; ddos := ddos a;
     brute_force := brute_force a |}.
Definition append_xss (e : Event) (a : Attacks) : Attacks :=
  {| sql_injection := sql_injection a; xss := xss a ++ [e]; ddos := ddos a;
     brute_force := brute_force a |}.
Definition append_ddos (e : DDoSEvent) (a : Attacks) : Attacks :=
  {| sql_injection := sql_injection a; xss := xss a; ddos := ddos a ++ [e];
     brute_force := brute_force a |}.
Definition append_brute (e : Event) (a : Attacks) : Attacks :=
  {| sql_injection := sql_injection a; xss := xss a; ddos := ddos a;
     brute_force := brute_force a ++ [e] |}.

(** [d[k]] on a [defaultdict(int)]: a missing key is inserted with 0. *)
Definition dd_getitem (d : gmap str Z) (k : str) : Z * gmap str Z :=
  match d !! k with
  | Some v => (v, d)
  | None => (0, <[k := 0]> d)
  end.

(** [d[k] += 1] on a [defaultdict(int)]. *)
Definition dd_incr (d : gmap str Z) (k : str) : gmap str Z :=
  let '(v, d1) := dd_getitem d k in <[k := v + 1]> d1.

(** [bool(re.search(pattern, line))] *)
Definition matches (ic : bool) (r : regex) (line : str) : bool :=
  match search ic r line with
  | Some _ => true
  | None => false
  end.

(** Lines 45-46: the address of the line. *)
Definition extract_ip (line : str) : option str :=
  let ip_match := search false ip_re line in
  match ip_match with
  | Some m => Some (group0 m)
  | None => None
  end.

(** [attack['ip'] == ip] *)
Definition ip_eqb (x y : option str) : bool := bool_decide (x = y).

(** Lines 48-50. *)
Definition record_ip (ip : option str) (self : LogAnalyzer) : LogAnalyzer :=
  if truthy ip then
    match ip with
    | Some a =>
        let self := set_stats (add_unique_ip a) self in
        set_ip_frequency (dd_incr (ip_frequency self) a) self
    | None => self
    end
  else self.

(** Lines 53-59. *)
Definition check_sql (line : str) (line_number : Z) (ip : option str)
    (self : LogAnalyzer) : LogAnalyzer :=
  if matches true sql_re line then
    let self := set_stats incr_sql self in
    set_attacks (append_sql {| ev_line := line_number; ev_ip := ip;
                               ev_content := strip line |}) self
  else self.

(** Lines 62-68. *)
Definition check_xss (line : str) (line_number : Z) (ip : option str)
    (self : LogAnalyzer) : LogAnalyzer :=
  if matches true xss_re line then
    let self := set_stats incr_xss self in
    set_attacks (append_xss {| ev_line := line_number; ev_ip := ip;
                               ev_content := strip line |}) self
  else self.

(** Lines 71-78.  Each [self.ip_frequency[ip]] is a read of the
    [defaultdict]; the first one is only evaluated when [ip] is true. *)
Definition check_ddos (line_number : Z) (ip : option str)
    (self : LogAnalyzer) : LogAnalyzer :=
  match ip with
  | Some a =>
      if truthy ip then
        let '(n, d) := dd_getitem (ip_frequency self) a in
        let self := set_ip_frequency d self in
        if 100 <? n then
          if negb (existsb (fun attack => ip_eqb (dd_ip attack) ip)
                     (ddos (attacks self)))
          then
            let self := set_stats incr_ddos self in
            let '(n', d') := dd_getitem (ip_frequency self) a in
            let self := set_ip_frequency d' self in
            set_attacks (append_ddos {| dd_line := line_number; dd_ip := ip;
                                        dd_count := n' |}) self
          else self
        else self
      else self
  | None => self
  end.

(** Lines 81-87. *)
Definition check_brute (line : str) (line_number : Z) (ip : option str)
    (self : LogAnalyzer) : LogAnalyzer :=
  if matches true brute_re line then
    let self := set_stats incr_brute self in
    set_attacks (append_brute {| ev_line := line_number; ev_ip := ip;
                                 ev_content := strip line |}) self
  else self.

(** [LogAnalyzer.analyze_line] (lines 43-87). *)
Definition analyze_line (self : LogAnalyzer) (line : str) (line_number : Z)
    : LogAnalyzer :=
  let ip := extract_ip line in
  let self := record_ip ip self in
  let self := check_sql line line_number ip self in
  let self := check_xss line line_number ip self in
  let self := check_ddos line_number ip self in
  let self := check_brute line line_number ip self in
  self.

(** The value returned by [analyze_file]. *)
Record ReportStats : Type := {
  r_total_attacks : Z;
  r_sql_injection_count : Z;
  r_xss_count : Z;
  r_ddos_count : Z;
  r_brute_force_count : Z;
  r_unique_ips : Z
}.

Record Report : Type := {
  r_stats : ReportStats;
  r_ip_frequency : gmap str Z;
  r_sql_injection : list Event;
  r_xss : list Event;
  r_ddos : list DDoSEvent;
  r_brute_force : list Event
}.

(** The loop of lines 90-95, from the line number reached so far. *)
Fixpoint feed (self : LogAnalyzer) (line_number : Z) (file : list str)
    : LogAnalyzer :=
  match file with
  | [] => self
  | line :: file' =>
      let line_number := line_number + 1 in
      feed (analyze_line self line line_number) line_number file'
  end.

(** Lines 97-118: the total is stored in [self.stats], then the report is
    built from the instance. *)
Definition finalize (self : LogAnalyzer) : LogAnalyzer * Report :=
  let self :=
    set_stats (fun st => set_total (sql_injection_count st + xss_count st
                                    + ddos_count st + brute_force_count st) st)
      self in
  (self,
   {| r_stats :=
        {| r_total_attacks := total_attacks (stats self);
           r_sql_injection_count := sql_injection_count (stats self);
           r_xss_count := xss_count (stats self);
           r_ddos_count := ddos_count (stats self);
           r_brute_force_count := brute_force_count (stats self);
           r_unique_ips := Z.of_nat (size (unique_ips (stats self))) |};
      r_ip_frequency := ip_frequency self;
      r_sql_injection := sql_injection (attacks self);
      r_xss := xss (attacks self);
      r_ddos := ddos (attacks self);
      r_brute_force := brute_force (attacks self) |}).

(** [LogAnalyzer.analyze_file] (lines 89-118), on an instance [self]. *)
Definition analyze_file (self : LogAnalyzer) (file : list str)
    : LogAnalyzer * Report :=
  finalize (feed self 0 file).

(** [LogAnalyzer().analyze_file(file)], as in [upload_file] (lines 137-138). *)
Definition run (file : list str) : Report :=
  snd (analyze_file __init__ file).

(** ** What a pattern denotes

    [den ic r b a b' a']: from the position [(b, a)] the pattern [r] can
    consume characters up to the position [(b', a')].  The matcher [mtch]
    explores these possibilities in Python's order of preference. *)

Fixpoint den (ic : bool) (r : regex) (b a b' a' : str) : Prop :=
  match r with
  | Eps => b' = b ∧ a' = a
  | Chr c => ∃ x, a = x :: a' ∧ b' = x :: b ∧ chr_eq ic c x = true
  | Cls k => ∃ x, a = x :: a' ∧ b' = x :: b ∧ in_class k x = true
  | Seq r1 r2 => ∃ b1 a1, den ic r1 b a b1 a1 ∧ den ic r2 b1 a1 b' a'
  | Alt r1 r2 => den ic r1 b a b' a' ∨ den ic r2 b a b' a'
  | Star k =>
      ∃ m, a = m ++ a' ∧ b' = rev m ++ b ∧ forallb (in_class k) m = true
  | WordB => b' = b ∧ a' = a ∧ at_boundary b a = true
  | EndS => b' = b ∧ a' = a ∧ at_end a = true
  end.

(** ** Runs of the analyzer *)

(** A sequence of calls [analyze_line(line, line_number)] on an instance. *)
Definition play (self : LogAnalyzer) (calls : list (str * Z)) : LogAnalyzer :=
  fold_left (fun s c => analyze_line s (fst c) (snd c)) calls self.

(** The calls made by the loop of [analyze_file]. *)
Fixpoint numbered (line_number : Z) (file : list str) : list (str * Z) :=
  match file with
  | [] => []
  | line :: file' => (line, line_number + 1) :: numbered (line_number + 1) file'
  end.

(** The running count of an address: [ip_frequency.get(a, 0)]. *)
Definition freq (self : LogAnalyzer) (a : str) : Z :=
  default 0 (ip_frequency self !! a).

(** Each category counter is the length of the category's event list. *)
Definition counts_ok (self : LogAnalyzer) : Prop :=
  sql_injection_count (stats self)
    = Z.of_nat (length (sql_injection (attacks self)))
  ∧ xss_count (stats self) = Z.of_nat (length (xss (attacks self)))
  ∧ ddos_count (stats self) = Z.of_nat (length (ddos (attacks self)))
  ∧ brute_force_count (stats self)
    = Z.of_nat (length (brute_force (attacks self))).

(** One step changes a counter [c] to [c'] and a list [l] to [l'] together:
    either both are left alone, or the counter grows by one and one event
    is appended. *)
Definition paired {E : Type} (c c' : Z) (l l' : list E) : Prop :=
  (c' = c ∧ l' = l) ∨ (c' = c + 1 ∧ ∃ e, l' = l ++ [e]).

(** ** Addresses, in the words of the specification *)

(** A group of one to three digits. *)
Definition digit_group (g : str) : Prop :=
  (1 <= length g <= 3)%nat ∧ forallb is_digit g = true.

(** Four dot-separated groups of one to three digits; the value of a group
    is not looked at. *)
Definition ip_shape (m : str) : Prop :=
  ∃ g1 g2 g3 g4 : str,
    m = g1 ++ "."%char :: g2 ++ "."%char :: g3 ++ "."%char :: g4
    ∧ digit_group g1 ∧ digit_group g2 ∧ digit_group g3 ∧ digit_group g4.

(** The character before a segment, or after it, is not a letter, a digit
    or an underscore (there may be no character at all). *)
Definition no_word_before (pre : str) : Prop :=
  ∀ c, last pre = Some c -> is_word c = false.
Definition no_word_after (post : str) : Prop :=
  ∀ c, head post = Some c -> is_word c = false.

(** [m] occurs in [line] between [pre] and [post], shaped like an address. *)
Definition shaped_at (line pre m post : str) : Prop :=
  line = pre ++ m ++ post ∧ ip_shape m.

(** The same, and the occurrence is delimited by word boundaries. *)
Definition delimited_at (line pre m post : str) : Prop :=
  shaped_at line pre m post ∧ no_word_before pre ∧ no_word_after post.

(** The counter and the event list of each category. *)
Definition sql_of (s : LogAnalyzer) : Z * list Event :=
  (sql_injection_count (stats s), sql_injection (attacks s)).
Definition xss_of (s : LogAnalyzer) : Z * list Event :=
  (xss_count (stats s), xss (attacks s)).
Definition ddos_of (s : LogAnalyzer) : Z * list DDoSEvent :=
  (ddos_count (stats s), ddos (attacks s)).
Definition brute_of (s : LogAnalyzer) : Z * list Event :=
  (brute_force_count (stats s), brute_force (attacks s)).


(** The entries of the DDoS list for the address [a]. *)
Definition ddos_for (a : str) (self : LogAnalyzer) : list DDoSEvent :=
  List.filter (fun e => ip_eqb (dd_ip e) (Some a)) (ddos (attacks self)).

(** The latch: an address has an entry, and only one, exactly when its
    running count is above 100. *)
Definition ddos_latch (self : LogAnalyzer) : Prop :=
  ∀ a, if 100 <? freq self a then ∃ e, ddos_for a self = [e]
       else ddos_for a self = [].

(** [seg ic r b m a']: the pattern [r] matches exactly the segment [m],
    with [b] before it (nearest character first) and [a'] after it. *)
Definition seg (ic : bool) (r : regex) (b m a' : str) : Prop :=
  den ic r b (m ++ a') (rev m ++ b) a'.

(** ** Attack patterns, in the words of the specification *)

(** [m] is the word [w] up to the case of its letters. *)
Definition icase_eq (m w : str) : Prop :=
  map unicode_tolower m = map unicode_tolower w.

(** The line contains the word [w], in any case. *)
Definition contains_icase (line w : str) : Prop :=
  ∃ pre m post, line = pre ++ m ++ post ∧ icase_eq m w.

Definition all_space (ws : str) : Prop := forallb is_space ws = true.

(** [w1], then white space, then [w2]. *)
Definition words_spaced (w1 w2 line : str) : Prop :=
  ∃ pre m1 ws m2 post,
    line = pre ++ m1 ++ ws ++ m2 ++ post
    ∧ icase_eq m1 w1 ∧ ws ≠ [] ∧ all_space ws ∧ icase_eq m2 w2.

(** [w1] anywhere before [w2], with no line break in between. *)
Definition word_before (w1 w2 line : str) : Prop :=
  ∃ pre m1 mid m2 post,
    line = pre ++ m1 ++ mid ++ m2 ++ post
    ∧ icase_eq m1 w1 ∧ (newline ∉ mid) ∧ icase_eq m2 w2.

(** The line ends with [--] followed only by white space. *)
Definition ends_with_comment (line : str) : Prop :=
  ∃ pre ws, line = pre ++ "--"%string ++ ws ∧ all_space ws.

Definition sql_spec (line : str) : Prop :=
  words_spaced "union"%string "select"%string line
  ∨ word_before "select"%string "from"%string line
  ∨ words_spaced "drop"%string "table"%string line
  ∨ ends_with_comment line.

(** ** [allowed_file] (lines 20-23) *)

Definition ALLOWED_EXTENSIONS : gset str :=
  {[ list_ascii_of_string "log"; list_ascii_of_string "txt" ]}.

(** [c in s] for a one-character string [c]. *)
Definition contains_char (c : ascii) (s : str) : bool :=
  existsb (Ascii.eqb c) s.

(** The text before and the text after the last [sep] of [s], if any. *)
Fixpoint rpartition (sep : ascii) (s : str) : option (str * str) :=
  match s with
  | [] => None
  | c :: s' =>
      match rpartition sep s' with
      | Some (h, t) => Some (c :: h, t)
      | None => if Ascii.eqb c sep then Some ([], s') else None
      end
  end.

(** [s.rsplit(sep, 1)] for a one-character [sep]: one split, at the last
    occurrence; the whole of [s] when there is none. *)
Definition rsplit1 (sep : ascii) (s : str) : list str :=
  match rpartition sep s with
  | Some (h, t) => [h; t]
  | None => [s]
  end.

(** [s.lower()]; on the code points below U+0100 it is the simple
    lower-casing, character by character. *)
Definition lower (s : str) : str := map unicode_tolower s.

(** [allowed_file(filename)].  [None] stands for the [IndexError] that
    [rsplit(...)[1]] raises on a list of one element. *)
Definition allowed_file (filename : str) : option bool :=
  if contains_char "." filename then
    match rsplit1 "." filename !! 1%nat with
    | Some ext => Some (bool_decide (lower ext ∈ ALLOWED_EXTENSIONS))
    | None => None
    end
  else Some false.

(** The extension of a file name: what follows its last dot. *)
Definition has_extension (filename ext : str) : Prop :=
  ∃ base, filename = base ++ "."%char :: ext ∧ "."%char ∉ ext.

(** ** Reports, read off the stream *)

(** The event recorded for a call whose line matches a pattern. *)
Definition event_of (c : str * Z) : Event :=
  {| ev_line := snd c; ev_ip := extract_ip (fst c);
     ev_content := strip (fst c) |}.

(** The events of the calls whose line matches [r], in the order of the
    calls. *)
Definition events_of (r : regex) (calls : list (str * Z)) : list Event :=
  map event_of (List.filter (fun c => matches true r (fst c)) calls).

(** The number of lines of [file] whose address is [a]. *)
Definition occurrences (a : str) (file : list str) : nat :=
  length (List.filter (fun line => bool_decide (extract_ip line = Some a)) file).

(** Line numbers in increasing order, all between 1 and [n]. *)
Definition ordered_upto (n : Z) (l : list Z) : Prop :=
  StronglySorted Z.lt l ∧ Forall (fun k => 1 <= k <= n) l.

(** An event moved [k] lines down the stream. *)
Definition shift_event (k : Z) (e : Event) : Event :=
  {| ev_line := ev_line e + k; ev_ip := ev_ip e;
     ev_content := ev_content e |}.

(** The count of an address in a report: [ip_frequency.get(a, 0)]. *)
Definition report_freq (r : Report) (a : str) : Z :=
  default 0 (r_ip_frequency r !! a).

(** A text whose last character is not white space. *)
Definition ends_nonspace (w : str) : Prop :=
  ∃ w' c, w = w' ++ [c] ∧ is_space c = false.

(** ** The request handlers (lines 124-176)

    The handlers act on the world outside the program: the clock, the
    directory [uploads], the log.  The world is a parameter [World], and
    the library calls that touch it are parameters too; a call returns the
    world after it and either a value or the text [str(e)] of the exception
    it raised.  Nothing is assumed of these calls.  A [FileStorage] gives
    its lines as text, as [analyze_file] takes them. *)

Definition UPLOAD_FOLDER : str := list_ascii_of_string "uploads".

(** [s.startswith(p)] *)
Fixpoint startswith (s p : str) : bool :=
  match p, s with
  | [], _ => true
  | c :: p', x :: s' => Ascii.eqb x c && startswith s' p'
  | _ :: _, [] => false
  end.

(** [a < b] on [str]: lexicographic on the code points. *)
Fixpoint str_ltb (a b : str) : bool :=
  match a, b with
  | _, [] => false
  | [], _ :: _ => true
  | x :: a', y :: b' =>
      if (ord x <? ord y)%N then true
      else if (ord y <? ord x)%N then false
      else str_ltb a' b'
  end.

(** [max(l)] on a list of [str]: the first of the greatest elements;
    [None] stands for the [ValueError] raised on an empty list. *)
Definition max_str (l : list str) : option str :=
  match l with
  | [] => None
  | x :: l' => Some (fold_left (fun m y => if str_ltb m y then y else m) l' x)
  end.

(** [os.path.join(a, b)] of [posixpath]. *)
Definition path_join (a b : str) : str :=
  if startswith b ["/"%char] then b
  else if bool_decide (a = []) || startswith (rev a) ["/"%char] then a ++ b
  else a ++ "/"%char :: b.

(** [request.files['file']]: the name and the lines of the uploaded file. *)
Record FileStorage : Type := { filename : str; stream : list str }.

(** What a handler returns. *)
Inductive Response : Type :=
| json_error (error : str)     (* jsonify({'success': False, 'error': ...}) *)
| json_results (results : Report) (* jsonify({'success': True, 'results': ...}) *)
| file_response (path : str)   (* send_file(path, ...) *)
| unhandled.                   (* an exception leaves the handler *)

Section Handlers.
Variable World : Type.

(** A library call: the world after it, and [inl (str e)] when it raised
    the exception [e]. *)
Definition IO (A : Type) : Type := World -> World * (str + A).

Definition io_ret {A : Type} (x : A) : IO A := fun w => (w, inr x).

Definition io_bind {A B : Type} (m : IO A) (k : A -> IO B) : IO B :=
  fun w =>
    match m w with
    | (w', inr x) => k x w'
    | (w', inl e) => (w', inl e)
    end.

(** [datetime.now().strftime('%Y%m%d_%H%M%S')] *)
Variable now_strftime : World -> World * str.
(** [os.makedirs(path, exist_ok=True)] *)
Variable os_makedirs : str -> IO unit.
(** [with open(path, 'w') as f: json.dump(results, f, indent=2)] *)
Variable json_dump_to : str -> Report -> IO unit.
(** [os.listdir(path)] *)
Variable os_listdir : str -> IO (list str).
(** [send_file(path, mimetype='application/json', as_attachment=True)] *)
Variable send_file : str -> IO unit.
(** [logging.error(message)] *)
Variable logging_error : str -> World -> World.

(** The [try] block of [upload_file] (lines 137-152). *)
Definition upload_body (file : FileStorage) : IO Report :=
  let results := run (stream file) in
  io_bind (fun w => let '(w', t) := now_strftime w in (w', inr t))
    (fun timestamp =>
       let result_filename :=
         list_ascii_of_string "analysis_result_" ++ timestamp
           ++ list_ascii_of_string ".json" in
       let result_path := path_join UPLOAD_FOLDER result_filename in
       io_bind (os_makedirs UPLOAD_FOLDER) (fun _ =>
       io_bind (json_dump_to result_path results) (fun _ =>
       io_ret results))).

(** [upload_file] (lines 125-156), on [request.files]. *)
Definition upload_file (files : gmap str FileStorage) (w : World)
    : World * Response :=
  match files !! list_ascii_of_string "file" with
  | None => (w, json_error (list_ascii_of_string "No file part"))
  | Some file =>
      if bool_decide (filename file = []) then
        (w, json_error (list_ascii_of_string "No selected file"))
      else
        match allowed_file (filename file) with
        | None => (w, unhandled)
        | Some false => (w, json_error (list_ascii_of_string "Invalid file type"))
        | Some true =>
            match upload_body file w with
            | (w', inr results) => (w', json_results results)
            | (w', inl e) =>
                (logging_error
                   (list_ascii_of_string "Error analyzing file: " ++ e) w',
                 json_error e)
            end
        end
  end.

(** The [try] block of [download_results] (lines 161-172). *)
Definition download_body (format : str) : IO Response :=
  io_bind (os_listdir UPLOAD_FOLDER) (fun names =>
    let result_files :=
      List.filter
        (fun f => startswith f (list_ascii_of_string "analysis_result_"))
        names in
    match result_files with
    | [] => io_ret (json_error (list_ascii_of_string "No analysis results found"))
    | _ :: _ =>
        match max_str result_files with
        | None => fun w => (w, inl (list_ascii_of_string
                                      "max() arg is an empty sequence"))
        | Some latest_result =>
            let result_path := path_join UPLOAD_FOLDER latest_result in
            if bool_decide (format = list_ascii_of_string "json") then
              io_bind (send_file result_path) (fun _ =>
              io_ret (file_response result_path))
            else
              io_ret (json_error
                        (list_ascii_of_string "Invalid format requested"))
        end
    end).

(** [download_results] (lines 159-176). *)
Definition download_results (format : str) (w : World) : World * Response :=
  match download_body format w with
  | (w', inr response) => (w', response)
  | (w', inl e) =>
      (logging_error
         (list_ascii_of_string "Error downloading results: " ++ e) w',
       json_error e)
  end.

End Handlers.

(** The name under which a report is stored at the time [timestamp]. *)
Definition result_name (timestamp : str) : str :=
  list_ascii_of_string "analysis_result_" ++ timestamp
    ++ list_ascii_of_string ".json".

(** A text whose first character is not white space. *)
Definition starts_nonspace (w : str) : Prop :=
  ∃ c w', w = c :: w' ∧ is_space c = false.

(** * Properties *)

(** ** Metatheory of the matcher *)

Section MatcherFacts.
Context {A : Type}.
Variable ic : bool.

Lemma star_k_Some p b a (k : str -> str -> option A) x :
  star_k p b a k = Some x ->
  ∃ m a', a = m ++ a' ∧ forallb p m = true ∧ k (rev m ++ b) a' = Some x.
Proof.
  revert b. induction a as [|c a IH]; intros b H; simpl in H.
  - exists [], []. auto.
  - destruct (p c) eqn:Hp.
    + destruct (star_k p (c :: b) a k) eqn:Hs.
      * injection H as <-. apply IH in Hs as (m & a' & -> & Hm & Hk).
        exists (c :: m), a'. simpl. rewrite Hp, Hm.
        rewrite <- app_assoc. auto.
      * exists [], (c :: a). auto.
    + exists [], (c :: a). auto.
Qed.

Lemma star_k_None p b a (k : str -> str -> option A) :
  star_k p b a k = None ->
  ∀ m a', a = m ++ a' -> forallb p m = true -> k (rev m ++ b) a' = None.
Proof.
  revert b. induction a as [|c a IH]; intros b H m a' Ha Hm; simpl in H.
  - destruct m; [|discriminate]. simpl in Ha. subst a'. exact H.
  - destruct m as [|x m]; simpl in Ha.
    + subst a'. simpl. destruct (p c); [|exact H].
      destruct (star_k p (c :: b) a k); [discriminate|exact H].
    + injection Ha as <- ->. simpl in Hm.
      apply andb_true_iff in Hm as [Hx Hm]. rewrite Hx in H.
      destruct (star_k p (c :: b) (m ++ a') k) eqn:Hs; [discriminate|].
      simpl. rewrite <- app_assoc. simpl. eapply IH; eauto.
Qed.

Lemma mtch_Some r : ∀ b a (k : str -> str -> option A) x,
  mtch ic r b a k = Some x ->
  ∃ b' a', den ic r b a b' a' ∧ k b' a' = Some x.
Proof.
  induction r as [|c|cl|r1 IH1 r2 IH2|r1 IH1 r2 IH2|cl| |];
    intros b a k x H; simpl in H.
  - exists b, a. simpl. auto.
  - destruct a as [|y a]; [discriminate|].
    destruct (chr_eq ic c y) eqn:E; [|discriminate].
    exists (y :: b), a. simpl. eauto.
  - destruct a as [|y a]; [discriminate|].
    destruct (in_class cl y) eqn:E; [|discriminate].
    exists (y :: b), a. simpl. eauto.
  - apply IH1 in H as (b1 & a1 & H1 & H).
    apply IH2 in H as (b2 & a2 & H2 & H).
    exists b2, a2. simpl. eauto.
  - destruct (mtch ic r1 b a k) eqn:E.
    + injection H as <-. apply IH1 in E as (b' & a' & H1 & H).
      exists b', a'. simpl. auto.
    + apply IH2 in H as (b' & a' & H2 & H).
      exists b', a'. simpl. auto.
  - apply star_k_Some in H as (m & a' & -> & Hm & H).
    exists (rev m ++ b), a'. simpl. eauto.
  - destruct (at_boundary b a) eqn:E; [|discriminate].
    exists b, a. simpl. auto.
  - destruct (at_end a) eqn:E; [|discriminate].
    exists b, a. simpl. auto.
Qed.

Lemma mtch_None r : ∀ b a (k : str -> str -> option A),
  mtch ic r b a k = None ->
  ∀ b' a', den ic r b a b' a' -> k b' a' = None.
Proof.
  induction r as [|c|cl|r1 IH1 r2 IH2|r1 IH1 r2 IH2|cl| |];
    intros b a k H b' a' D; simpl in H, D.
  - destruct D as [-> ->]. exact H.
  - destruct D as (y & -> & -> & E). rewrite E in H. exact H.
  - destruct D as (y & -> & -> & E). rewrite E in H. exact H.
  - destruct D as (b1 & a1 & D1 & D2).
    eapply IH2; [|exact D2].
    exact (IH1 _ _ _ H _ _ D1).
  - destruct (mtch ic r1 b a k) eqn:E; [discriminate|].
    destruct D as [D|D]; eauto.
  - destruct D as (m & -> & -> & Hm). eapply star_k_None; eauto.
  - destruct D as (-> & -> & E). rewrite E in H. exact H.
  - destruct D as (-> & -> & E). rewrite E in H. exact H.
Qed.
End MatcherFacts.

(** A match consumes a segment of the subject. *)
Lemma den_span ic r : ∀ b a b' a',
  den ic r b a b' a' -> ∃ m, a = m ++ a' ∧ b' = rev m ++ b.
Proof.
  induction r as [|c|cl|r1 IH1 r2 IH2|r1 IH1 r2 IH2|cl| |];
    intros b a b' a' D; simpl in D.
  - destruct D as [-> ->]. exists []. auto.
  - destruct D as (y & -> & -> & _). exists [y]. auto.
  - destruct D as (y & -> & -> & _). exists [y]. auto.
  - destruct D as (b1 & a1 & D1 & D2).
    apply IH1 in D1 as (m1 & -> & ->). apply IH2 in D2 as (m2 & -> & ->).
    exists (m1 ++ m2). rewrite rev_app_distr, <- !app_assoc. auto.
  - destruct D as [D|D]; eauto.
  - destruct D as (m & -> & -> & _). eauto.
  - destruct D as (-> & -> & _). exists []. auto.
  - destruct D as (-> & -> & _). exists []. auto.
Qed.

(** ** [re.search] finds the leftmost position where the pattern matches *)

Lemma search_from_Some ic r s : ∀ a b mt,
  search_from ic r s b a = Some mt ->
  ∃ pre m post,
    a = pre ++ m ++ post
    ∧ den ic r (rev pre ++ b) (m ++ post) (rev m ++ rev pre ++ b) post
    ∧ mt = {| m_string := s; m_start := (length b + length pre)%nat;
              m_end := (length b + length pre + length m)%nat |}
    ∧ (∀ pre1 rest1 b' a',
         a = pre1 ++ rest1 -> (length pre1 < length pre)%nat ->
         ¬ den ic r (rev pre1 ++ b) rest1 b' a').
Proof.
  induction a as [|c a IH]; intros b mt H; simpl in H.
  - destruct (mtch ic r b [] _) eqn:E; [|discriminate].
    injection H as <-.
    apply mtch_Some in E as (b' & a' & D & [= <-]).
    destruct (den_span _ _ _ _ _ _ D) as (m & Ha & ->).
    exists [], m, a'. simpl. rewrite Ha in D.
    repeat split; auto.
    + rewrite length_app, length_rev. f_equal; lia.
    + intros; lia.
  - destruct (mtch ic r b (c :: a) _) eqn:E.
    + injection H as <-.
      apply mtch_Some in E as (b' & a' & D & [= <-]).
      destruct (den_span _ _ _ _ _ _ D) as (m & Ha & ->).
      exists [], m, a'. simpl. rewrite Ha in D.
      repeat split; auto.
      * rewrite length_app, length_rev. f_equal; lia.
      * intros; lia.
    + apply IH in H as (pre & m & post & -> & D & -> & Hmin).
      exists (c :: pre), m, post. simpl.
      rewrite <- !app_assoc. simpl.
      repeat split; auto.
      * f_equal; lia.
      * intros pre1 rest1 b' a' Hs Hl D1.
        destruct pre1 as [|y pre1]; simpl in Hs.
        -- subst rest1. simpl in D1.
           pose proof (mtch_None _ _ _ _ _ E _ _ D1). discriminate.
        -- injection Hs as <- Hs. simpl in D1, Hl.
           rewrite <- app_assoc in D1. simpl in D1.
           eapply Hmin; [exact Hs| lia | exact D1].
Qed.

Lemma search_from_None ic r s : ∀ a b,
  search_from ic r s b a = None ->
  ∀ pre1 rest1 b' a',
    a = pre1 ++ rest1 -> ¬ den ic r (rev pre1 ++ b) rest1 b' a'.
Proof.
  induction a as [|c a IH]; intros b H pre1 rest1 b' a' Hs D; simpl in H.
  - destruct (mtch ic r b [] _) eqn:E; [discriminate|].
    destruct pre1; [|discriminate]. simpl in Hs, D. subst rest1.
    pose proof (mtch_None _ _ _ _ _ E _ _ D). discriminate.
  - destruct (mtch ic r b (c :: a) _) eqn:E; [discriminate|].
    destruct pre1 as [|y pre1]; simpl in Hs.
    + subst rest1. simpl in D.
      pose proof (mtch_None _ _ _ _ _ E _ _ D). discriminate.
    + injection Hs as <- Hs. simpl in D. rewrite <- app_assoc in D.
      eapply IH; eauto.
Qed.

Lemma group0_span (pre m post : str) :
  group0 {| m_string := pre ++ m ++ post; m_start := length pre;
            m_end := (length pre + length m)%nat |} = m.
Proof.
  unfold group0. simpl.
  rewrite drop_app_length.
  replace (length pre + length m - length pre)%nat with (length m) by lia.
  apply take_app_length.
Qed.

Lemma search_Some ic r s mt :
  search ic r s = Some mt ->
  ∃ pre post,
    s = pre ++ group0 mt ++ post
    ∧ den ic r (rev pre) (group0 mt ++ post)
        (rev (group0 mt) ++ rev pre) post
    ∧ (∀ pre1 rest1 b' a',
         s = pre1 ++ rest1 -> (length pre1 < length pre)%nat ->
         ¬ den ic r (rev pre1) rest1 b' a').
Proof.
  unfold search. intros H.
  apply search_from_Some in H as (pre & m & post & Hs & D & -> & Hmin).
  exists pre, post. simpl length. simpl Nat.add.
  subst s. rewrite group0_span.
  rewrite !app_nil_r in D.
  split; [reflexivity|]. split; [exact D|].
  intros pre1 rest1 b' a' H1 H2 D1. eapply Hmin; eauto.
  rewrite app_nil_r. exact D1.
Qed.

Lemma search_None ic r s :
  search ic r s = None ->
  ∀ pre rest b' a', s = pre ++ rest -> ¬ den ic r (rev pre) rest b' a'.
Proof.
  unfold search. intros H pre rest b' a' Hs D.
  eapply search_from_None; eauto. rewrite app_nil_r. exact D.
Qed.

(** A pattern is found in a line exactly when it matches somewhere. *)
Lemma matches_iff ic r s :
  matches ic r s = true <->
  ∃ pre rest b' a', s = pre ++ rest ∧ den ic r (rev pre) rest b' a'.
Proof.
  unfold matches. destruct (search ic r s) as [mt|] eqn:E.
  - split; [intros _|auto].
    apply search_Some in E as (pre & post & Hs & D & _). eauto 6.
  - split; [discriminate|].
    intros (pre & rest & b' & a' & Hs & D).
    exfalso. eapply search_None; eauto.
Qed.

(** ** The loop of [analyze_file] *)

Lemma feed_play : ∀ file self n, feed self n file = play self (numbered n file).
Proof.
  induction file as [|line file IH]; intros self n; simpl; [reflexivity|].
  apply IH.
Qed.

Lemma play_app self cs1 cs2 : play self (cs1 ++ cs2) = play (play self cs1) cs2.
Proof. apply fold_left_app. Qed.

Lemma play_snoc self cs line n :
  play self (cs ++ [(line, n)]) = analyze_line (play self cs) line n.
Proof. rewrite play_app. reflexivity. Qed.

(** Induction over the calls made so far. *)
Lemma play_ind (P : LogAnalyzer -> Prop) self :
  P self ->
  (∀ s line n, P s -> P (analyze_line s line n)) ->
  ∀ cs, P (play self cs).
Proof.
  intros H0 Hstep cs. revert self H0.
  induction cs as [|[line n] cs IH]; intros self H0; simpl; auto.
Qed.

(** ** Counters and event lists *)

Lemma record_ip_cats ip s :
  let s' := record_ip ip s in
  sql_of s' = sql_of s ∧ xss_of s' = xss_of s
  ∧ ddos_of s' = ddos_of s ∧ brute_of s' = brute_of s
  ∧ total_attacks (stats s') = total_attacks (stats s).
Proof. unfold record_ip. repeat case_match; simpl; auto. Qed.

Lemma check_sql_cats line n ip s :
  let s' := check_sql line n ip s in
  sql_of s' =
    (if matches true sql_re line
     then (sql_injection_count (stats s) + 1,
           sql_injection (attacks s)
             ++ [{| ev_line := n; ev_ip := ip; ev_content := strip line |}])
     else sql_of s)
  ∧ xss_of s' = xss_of s ∧ ddos_of s' = ddos_of s ∧ brute_of s' = brute_of s
  ∧ total_attacks (stats s') = total_attacks (stats s).
Proof. unfold check_sql. case_match; simpl; auto. Qed.

Lemma check_xss_cats line n ip s :
  let s' := check_xss line n ip s in
  xss_of s' =
    (if matches true xss_re line
     then (xss_count (stats s) + 1,
           xss (attacks s)
             ++ [{| ev_line := n; ev_ip := ip; ev_content := strip line |}])
     else xss_of s)
  ∧ sql_of s' = sql_of s ∧ ddos_of s' = ddos_of s ∧ brute_of s' = brute_of s
  ∧ total_attacks (stats s') = total_attacks (stats s).
Proof. unfold check_xss. case_match; simpl; auto. Qed.

Lemma check_brute_cats line n ip s :
  let s' := check_brute line n ip s in
  brute_of s' =
    (if matches true brute_re line
     then (brute_force_count (stats s) + 1,
           brute_force (attacks s)
             ++ [{| ev_line := n; ev_ip := ip; ev_content := strip line |}])
     else brute_of s)
  ∧ sql_of s' = sql_of s ∧ xss_of s' = xss_of s ∧ ddos_of s' = ddos_of s
  ∧ total_attacks (stats s') = total_attacks (stats s).
Proof. unfold check_brute. case_match; simpl; auto. Qed.

Lemma check_ddos_cats n ip s :
  let s' := check_ddos n ip s in
  paired (ddos_count (stats s)) (ddos_count (stats s'))
    (ddos (attacks s)) (ddos (attacks s'))
  ∧ sql_of s' = sql_of s ∧ xss_of s' = xss_of s ∧ brute_of s' = brute_of s
  ∧ total_attacks (stats s') = total_attacks (stats s).
Proof.
  unfold check_ddos, dd_getitem, paired.
  repeat case_match; simplify_eq; simpl; eauto 10.
Qed.

(** The effect of one call on the four categories, for an arbitrary state:
    the three pattern checks depend on the line alone. *)
Lemma analyze_line_cats s line n :
  let s' := analyze_line s line n in
  let ev := {| ev_line := n; ev_ip := extract_ip line;
               ev_content := strip line |} in
  sql_of s' =
    (if matches true sql_re line
     then (sql_injection_count (stats s) + 1, sql_injection (attacks s) ++ [ev])
     else sql_of s)
  ∧ xss_of s' =
    (if matches true xss_re line
     then (xss_count (stats s) + 1, xss (attacks s) ++ [ev])
     else xss_of s)
  ∧ brute_of s' =
    (if matches true brute_re line
     then (brute_force_count (stats s) + 1, brute_force (attacks s) ++ [ev])
     else brute_of s)
  ∧ paired (ddos_count (stats s)) (ddos_count (stats s'))
      (ddos (attacks s)) (ddos (attacks s'))
  ∧ total_attacks (stats s') = total_attacks (stats s).
Proof.
  unfold analyze_line.
  set (ip := extract_ip line).
  set (s1 := record_ip ip s).
  set (s2 := check_sql line n ip s1).
  set (s3 := check_xss line n ip s2).
  set (s4 := check_ddos n ip s3).
  destruct (record_ip_cats ip s) as (A1 & B1 & C1 & D1 & T1).
  destruct (check_sql_cats line n ip s1) as (A2 & B2 & C2 & D2 & T2).
  destruct (check_xss_cats line n ip s2) as (B3 & A3 & C3 & D3 & T3).
  destruct (check_ddos_cats n ip s3) as (C4 & A4 & B4 & D4 & T4).
  destruct (check_brute_cats line n ip s4) as (D5 & A5 & B5 & C5 & T5).
  fold s1 in A1, B1, C1, D1, T1. fold s2 in A2, B2, C2, D2, T2.
  fold s3 in A3, B3, C3, D3, T3. fold s4 in A4, B4, C4, D4, T4.
  cbv zeta.
  assert (B21 : xss_of s2 = xss_of s) by congruence.
  assert (D41 : brute_of s4 = brute_of s) by congruence.
  assert (C31 : ddos_of s3 = ddos_of s) by congruence.
  unfold sql_of, xss_of, brute_of, ddos_of in *.
  split.
  { rewrite A5, A4, A3, A2. injection A1 as -> ->. reflexivity. }
  split.
  { rewrite B5, B4, B3. injection B21 as -> ->. reflexivity. }
  split.
  { rewrite D5. injection D41 as -> ->. reflexivity. }
  split.
  { injection C5 as -> ->. injection C31 as <- <-. exact C4. }
  congruence.
Qed.

Lemma analyze_line_paired s line n :
  let s' := analyze_line s line n in
  paired (sql_injection_count (stats s)) (sql_injection_count (stats s'))
    (sql_injection (attacks s)) (sql_injection (attacks s'))
  ∧ paired (xss_count (stats s)) (xss_count (stats s'))
      (xss (attacks s)) (xss (attacks s'))
  ∧ paired (ddos_count (stats s)) (ddos_count (stats s'))
      (ddos (attacks s)) (ddos (attacks s'))
  ∧ paired (brute_force_count (stats s)) (brute_force_count (stats s'))
      (brute_force (attacks s)) (brute_force (attacks s')).
Proof.
  destruct (analyze_line_cats s line n) as (A & B & D & C & _).
  cbv zeta in *. unfold sql_of, xss_of, brute_of, paired in *.
  repeat split; try exact C.
  - destruct (matches true sql_re line); simplify_eq; eauto.
  - destruct (matches true xss_re line); simplify_eq; eauto.
  - destruct (matches true brute_re line); simplify_eq; eauto.
Qed.

Lemma paired_length {E : Type} c c' (l l' : list E) :
  paired c c' l l' -> c = Z.of_nat (length l) -> c' = Z.of_nat (length l').
Proof.
  intros [[-> ->]|[-> [e ->]]] H; [exact H|].
  rewrite length_app. simpl. lia.
Qed.

Lemma analyze_line_counts_ok s line n :
  counts_ok s -> counts_ok (analyze_line s line n).
Proof.
  intros (H1 & H2 & H3 & H4).
  destruct (analyze_line_paired s line n) as (P1 & P2 & P3 & P4).
  repeat split; eapply paired_length; eauto.
Qed.

Lemma play_counts_ok cs : counts_ok (play __init__ cs).
Proof.
  apply play_ind; [|intros; by apply analyze_line_counts_ok].
  repeat split.
Qed.

Lemma analyze_line_total_attacks s line n :
  total_attacks (stats (analyze_line s line n)) = total_attacks (stats s).
Proof. by destruct (analyze_line_cats s line n) as (_ & _ & _ & _ & T). Qed.

Lemma feed_total_attacks file :
  total_attacks (stats (feed __init__ 0 file)) = 0.
Proof.
  rewrite feed_play. apply play_ind; [reflexivity|].
  intros s line n H. by rewrite analyze_line_total_attacks.
Qed.

(** C6: after every call of [analyze_line] on a fresh instance, and in the
    report of every stream, each of the four category counters is the length
    of that category's event list; and one call changes a counter and its
    list together, by one increment and one appended event, or not at all. *)
Theorem counters_equal_list_lengths :
  (∀ calls, counts_ok (play __init__ calls))
  ∧ (∀ file,
       let r := run file in
       r_sql_injection_count (r_stats r) = Z.of_nat (length (r_sql_injection r))
       ∧ r_xss_count (r_stats r) = Z.of_nat (length (r_xss r))
       ∧ r_ddos_count (r_stats r) = Z.of_nat (length (r_ddos r))
       ∧ r_brute_force_count (r_stats r) = Z.of_nat (length (r_brute_force r)))
  ∧ (∀ s line n,
       let s' := analyze_line s line n in
       paired (sql_injection_count (stats s)) (sql_injection_count (stats s'))
         (sql_injection (attacks s)) (sql_injection (attacks s'))
       ∧ paired (xss_count (stats s)) (xss_count (stats s'))
           (xss (attacks s)) (xss (attacks s'))
       ∧ paired (ddos_count (stats s)) (ddos_count (stats s'))
           (ddos (attacks s)) (ddos (attacks s'))
       ∧ paired (brute_force_count (stats s)) (brute_force_count (stats s'))
           (brute_force (attacks s)) (brute_force (attacks s'))).
Proof.
  split; [exact play_counts_ok|]. split; [|exact analyze_line_paired].
  intros file. unfold run, analyze_file, finalize. simpl.
  rewrite feed_play. exact (play_counts_ok _).
Qed.

(** C1: in the report of every stream, [total_attacks] is the sum of the
    four category counts and the sum of the lengths of the four event lists;
    it is computed when the report is built: until then the stored total is
    the initial 0, whatever the lines were. *)
Theorem total_attacks_is_sum (file : list str) :
  let r := run file in
  r_total_attacks (r_stats r)
    = r_sql_injection_count (r_stats r) + r_xss_count (r_stats r)
      + r_ddos_count (r_stats r) + r_brute_force_count (r_stats r)
  ∧ r_total_attacks (r_stats r)
    = Z.of_nat (length (r_sql_injection r) + length (r_xss r)
                + length (r_ddos r) + length (r_brute_force r))
  ∧ total_attacks (stats (feed __init__ 0 file)) = 0.
Proof.
  unfold run, analyze_file, finalize. simpl.
  split; [reflexivity|]. split; [|apply feed_total_attacks].
  rewrite feed_play.
  destruct (play_counts_ok (numbered 0 file)) as (H1 & H2 & H3 & H4).
  rewrite H1, H2, H3, H4. lia.
Qed.



(** ** The frequency table *)

Lemma dd_incr_eq d a : dd_incr d a = <[a := default 0 (d !! a) + 1]> d.
Proof.
  unfold dd_incr, dd_getitem. destruct (d !! a) eqn:E; simpl; [reflexivity|].
  apply insert_insert_eq.
Qed.

Lemma dd_getitem_Some d a v : d !! a = Some v -> dd_getitem d a = (v, d).
Proof. unfold dd_getitem. by intros ->. Qed.

Lemma check_sql_frame line n ip s :
  let s' := check_sql line n ip s in
  ip_frequency s' = ip_frequency s
  ∧ unique_ips (stats s') = unique_ips (stats s)
  ∧ ddos (attacks s') = ddos (attacks s).
Proof. unfold check_sql. case_match; simpl; auto. Qed.

Lemma check_xss_frame line n ip s :
  let s' := check_xss line n ip s in
  ip_frequency s' = ip_frequency s
  ∧ unique_ips (stats s') = unique_ips (stats s)
  ∧ ddos (attacks s') = ddos (attacks s).
Proof. unfold check_xss. case_match; simpl; auto. Qed.

Lemma check_brute_frame line n ip s :
  let s' := check_brute line n ip s in
  ip_frequency s' = ip_frequency s
  ∧ unique_ips (stats s') = unique_ips (stats s)
  ∧ ddos (attacks s') = ddos (attacks s).
Proof. unfold check_brute. case_match; simpl; auto. Qed.

(** The read of the [defaultdict] in the DDoS check finds the key that the
    address extraction has just written: it inserts nothing. *)
Lemma check_ddos_present n a s v :
  ip_frequency s !! a = Some v ->
  let s' := check_ddos n (Some a) s in
  ip_frequency s' = ip_frequency s
  ∧ unique_ips (stats s') = unique_ips (stats s)
  ∧ ddos (attacks s') =
      ddos (attacks s) ++
      (if truthy (Some a) && (100 <? v)
          && negb (existsb (fun e => ip_eqb (dd_ip e) (Some a))
                     (ddos (attacks s)))
       then [{| dd_line := n; dd_ip := Some a; dd_count := v |}] else []).
Proof.
  intros Hv. unfold check_ddos.
  destruct (truthy (Some a)); simpl; [|by rewrite app_nil_r].
  rewrite (dd_getitem_Some _ _ _ Hv). simpl.
  destruct (100 <? v); simpl; [|by rewrite app_nil_r].
  destruct (existsb _ _); simpl; [by rewrite app_nil_r|].
  rewrite (dd_getitem_Some _ _ _ Hv). simpl. auto.
Qed.

(** The effect of one call on the frequency table, the set of addresses and
    the DDoS list, for an arbitrary state. *)
Lemma analyze_line_tables s line n :
  let s' := analyze_line s line n in
  match extract_ip line with
  | Some a =>
      if truthy (Some a) then
        ip_frequency s' = <[a := freq s a + 1]> (ip_frequency s)
        ∧ unique_ips (stats s') = {[ a ]} ∪ unique_ips (stats s)
        ∧ ddos (attacks s') =
            ddos (attacks s) ++
            (if (100 <? freq s a + 1)
                && negb (existsb (fun e => ip_eqb (dd_ip e) (Some a))
                           (ddos (attacks s)))
             then [{| dd_line := n; dd_ip := Some a;
                      dd_count := freq s a + 1 |}] else [])
      else
        ip_frequency s' = ip_frequency s
        ∧ unique_ips (stats s') = unique_ips (stats s)
        ∧ ddos (attacks s') = ddos (attacks s)
  | None =>
      ip_frequency s' = ip_frequency s
      ∧ unique_ips (stats s') = unique_ips (stats s)
      ∧ ddos (attacks s') = ddos (attacks s)
  end.
Proof.
  unfold analyze_line.
  destruct (extract_ip line) as [a|] eqn:E.
  - destruct (truthy (Some a)) eqn:T.
    + set (s1 := record_ip (Some a) s).
      set (s2 := check_sql line n (Some a) s1).
      set (s3 := check_xss line n (Some a) s2).
      destruct (check_sql_frame line n (Some a) s1) as (F2 & U2 & D2).
      destruct (check_xss_frame line n (Some a) s2) as (F3 & U3 & D3).
      fold s2 in F2, U2, D2. fold s3 in F3, U3, D3.
      assert (F1 : ip_frequency s1 = <[a := freq s a + 1]> (ip_frequency s)).
      { unfold s1, record_ip. rewrite T. simpl. apply dd_incr_eq. }
      assert (U1 : unique_ips (stats s1) = {[ a ]} ∪ unique_ips (stats s)).
      { unfold s1, record_ip. rewrite T. reflexivity. }
      assert (D1 : ddos (attacks s1) = ddos (attacks s)).
      { unfold s1, record_ip. rewrite T. reflexivity. }
      assert (Hv : ip_frequency s3 !! a = Some (freq s a + 1)).
      { rewrite F3, F2, F1. apply lookup_insert_eq. }
      destruct (check_ddos_present n a s3 _ Hv) as (F4 & U4 & D4).
      set (s4 := check_ddos n (Some a) s3) in *.
      destruct (check_brute_frame line n (Some a) s4) as (F5 & U5 & D5).
      simpl. rewrite F5, U5, D5, F4, U4, D4, F3, U3, D3, F2, U2, D2, F1, U1, D1.
      rewrite T. auto.
    + assert (R : record_ip (Some a) s = s) by (unfold record_ip; by rewrite T).
      rewrite R.
      assert (C : ∀ s0, check_ddos n (Some a) s0 = s0).
      { intros s0. unfold check_ddos. by rewrite T. }
      rewrite C.
      set (s2 := check_sql line n (Some a) s).
      set (s3 := check_xss line n (Some a) s2).
      destruct (check_sql_frame line n (Some a) s) as (F2 & U2 & D2).
      destruct (check_xss_frame line n (Some a) s2) as (F3 & U3 & D3).
      destruct (check_brute_frame line n (Some a) s3) as (F5 & U5 & D5).
      fold s2 in F2, U2, D2. fold s3 in F3, U3, D3.
      simpl. rewrite F5, U5, D5, F3, U3, D3, F2, U2, D2. auto.
  - change (record_ip None s) with s.
    change (check_ddos n None ?x) with x. cbv zeta.
    set (s2 := check_sql line n None s).
    set (s3 := check_xss line n None s2).
    destruct (check_sql_frame line n None s) as (F2 & U2 & D2).
    destruct (check_xss_frame line n None s2) as (F3 & U3 & D3).
    destruct (check_brute_frame line n None s3) as (F5 & U5 & D5).
    fold s2 in F2, U2, D2. fold s3 in F3, U3, D3.
    rewrite F5, U5, D5, F3, U3, D3, F2, U2, D2. auto.
Qed.

(** ** The address pattern *)

Lemma is_digit_word c : is_digit c = true -> is_word c = true.
Proof. unfold is_digit, is_word. by intros ->. Qed.

Lemma den_digits13 ic b a b' a' :
  den ic digits13 b a b' a' <->
  ∃ g, digit_group g ∧ a = g ++ a' ∧ b' = rev g ++ b.
Proof.
  unfold digits13, Rep, digit_group. simpl. split.
  - intros (b1 & a1 & (b2 & a2 & (x & -> & -> & Hx) & -> & ->) & H).
    destruct H as [(b3 & a3 & (y & -> & -> & Hy) & H)|[-> ->]].
    + destruct H as [(b4 & a4 & (z & -> & -> & Hz) & -> & ->)|[-> ->]].
      * exists [x; y; z]. simpl. rewrite Hx, Hy, Hz. auto with lia.
      * exists [x; y]. simpl. rewrite Hx, Hy. auto with lia.
    + exists [x]. simpl. rewrite Hx. auto with lia.
  - intros (g & (Hl & Hd) & -> & ->).
    destruct g as [|x [|y [|z [|]]]]; simpl in Hl, Hd; try lia;
      repeat (apply andb_true_iff in Hd as [? Hd]).
    + exists (x :: b), a'. split.
      { exists (x :: b), a'. split; [exists x|]; auto. }
      right. auto.
    + exists (x :: b), (y :: a'). split.
      { exists (x :: b), (y :: a'). split; [exists x|]; auto. }
      left. exists (y :: x :: b), a'. split; [exists y; auto|].
      right. auto.
    + exists (x :: b), (y :: z :: a'). split.
      { exists (x :: b), (y :: z :: a'). split; [exists x|]; auto. }
      left. exists (y :: x :: b), (z :: a'). split; [exists y; auto|].
      left. exists (z :: y :: x :: b), a'. split; [exists z; auto|]. auto.
Qed.

Lemma den_dot b a b' a' :
  den false (Chr ".") b a b' a' <-> a = "."%char :: a' ∧ b' = "."%char :: b.
Proof.
  simpl. unfold chr_eq. split.
  - intros (x & -> & -> & E). apply Ascii.eqb_eq in E as ->. auto.
  - intros [-> ->]. exists "."%char. auto.
Qed.

Lemma digit_group_head g :
  digit_group g -> ∃ x g', g = x :: g' ∧ is_word x = true.
Proof.
  intros [Hl Hd]. destruct g as [|x g']; simpl in *; [lia|].
  apply andb_true_iff in Hd as [Hx _]. eauto using is_digit_word.
Qed.

Lemma digit_group_last g :
  digit_group g -> ∃ x g', rev g = x :: g' ∧ is_word x = true.
Proof.
  intros [Hl Hd].
  destruct (rev g) as [|x g'] eqn:E.
  - apply (f_equal (@length _)) in E. rewrite length_rev in E. simpl in E. lia.
  - exists x, g'. split; [reflexivity|]. apply is_digit_word.
    rewrite forallb_forall in Hd. apply Hd.
    apply in_rev. rewrite E. by left.
Qed.

Lemma no_word_before_iff pre :
  no_word_before pre <-> head_is_word (rev pre) = false.
Proof.
  unfold no_word_before.
  destruct pre as [|c pre _] using rev_ind; simpl.
  - split; [done|]. intros _ c [=].
  - rewrite rev_app_distr. simpl. rewrite last_snoc. split.
    + intros H. auto.
    + intros H ? [= <-]. exact H.
Qed.

Lemma no_word_after_iff post :
  no_word_after post <-> head_is_word post = false.
Proof.
  unfold no_word_after. destruct post as [|c post]; simpl.
  - split; [done|]. intros _ c [=].
  - split; [auto|]. intros H ? [= <-]. exact H.
Qed.

(** What [ip_re] matches at a position: an address-shaped segment with no
    word character on either side. *)
Lemma den_ip_re b a b' a' :
  den false ip_re b a b' a' <->
  ∃ m, a = m ++ a' ∧ b' = rev m ++ b ∧ ip_shape m
       ∧ head_is_word b = false ∧ head_is_word a' = false.
Proof.
  split.
  - intros D. destruct (den_span _ _ _ _ _ _ D) as (m & Ha & Hb).
    exists m. split; [exact Ha|]. split; [exact Hb|].
    unfold ip_re in D. cbn [den rep_exact] in D.
    destruct D as (b0 & a0 & (Eb0 & Ea0 & B0) & D). subst b0 a0.
    destruct D as (b3 & a3 & D123 & b4 & a4 & D4 & (Eb4 & Ea4 & B4)).
    subst b4 a4.
    destruct D123 as (b1 & a1 & (c1 & d1 & G1 & P1) & D23).
    destruct D23 as (b2 & a2 & (c2 & d2 & G2 & P2) & D3).
    destruct D3 as (b3' & a3' & (c3 & d3 & G3 & P3) & Eb3 & Ea3).
    subst b3' a3'.
    apply den_digits13 in G1 as (g1 & Hg1 & E1 & Ec1).
    apply den_dot in P1 as [Ed1 Eb1].
    apply den_digits13 in G2 as (g2 & Hg2 & Ea1 & Ec2).
    apply den_dot in P2 as [Ed2 Eb2].
    apply den_digits13 in G3 as (g3 & Hg3 & Ea2 & Ec3).
    apply den_dot in P3 as [Ed3 Eb3].
    apply den_digits13 in D4 as (g4 & Hg4 & Ea3 & E4).
    subst a3 d3 a2 d2 a1 d1. subst c1 b1 c2 b2 c3 b3.
    assert (Hm : m = g1 ++ "."%char :: g2 ++ "."%char :: g3 ++ "."%char :: g4).
    { apply (app_inv_tail a'). rewrite <- Ha, E1.
      repeat (rewrite <- ?app_assoc; cbn [app]). reflexivity. }
    split; [exists g1, g2, g3, g4; auto|].
    destruct (digit_group_head _ Hg1) as (x & g1' & -> & Hx).
    destruct (digit_group_last _ Hg4) as (y & g4' & Hy & Hyw).
    rewrite E1 in B0. rewrite E4, Hy in B4.
    unfold at_boundary in B0, B4. simpl in B0, B4.
    rewrite Hx in B0. rewrite Hyw in B4.
    split.
    + by destruct (head_is_word b).
    + by destruct (head_is_word a').
  - intros (m & -> & -> & (g1 & g2 & g3 & g4 & -> & Hg1 & Hg2 & Hg3 & Hg4)
             & Hb & Ha).
    unfold ip_re. cbn [den rep_exact].
    destruct (digit_group_head _ Hg1) as (x & g1' & E1 & Hx).
    destruct (digit_group_last _ Hg4) as (y & g4' & Hy & Hyw).
    exists b, ((g1 ++ "."%char :: g2 ++ "."%char :: g3 ++ "."%char :: g4) ++ a').
    split.
    { repeat split. unfold at_boundary. rewrite E1. simpl.
      by rewrite Hx, Hb. }
    repeat (rewrite <- ?app_assoc; cbn [app]).
    exists ("."%char :: rev g3 ++ "."%char :: rev g2 ++ "."%char :: rev g1 ++ b),
      (g4 ++ a').
    split.
    { exists ("."%char :: rev g1 ++ b),
        (g2 ++ "."%char :: g3 ++ "."%char :: g4 ++ a').
      split.
      { exists (rev g1 ++ b),
          ("."%char :: g2 ++ "."%char :: g3 ++ "."%char :: g4 ++ a').
        split; [apply den_digits13; eauto|]. by apply den_dot. }
      exists ("."%char :: rev g2 ++ "."%char :: rev g1 ++ b),
        (g3 ++ "."%char :: g4 ++ a').
      split.
      { exists (rev g2 ++ "."%char :: rev g1 ++ b),
          ("."%char :: g3 ++ "."%char :: g4 ++ a').
        split; [apply den_digits13; eauto|]. by apply den_dot. }
      exists ("."%char :: rev g3 ++ "."%char :: rev g2 ++ "."%char :: rev g1 ++ b),
        (g4 ++ a').
      split; [|done].
      exists (rev g3 ++ "."%char :: rev g2 ++ "."%char :: rev g1 ++ b),
        ("."%char :: g4 ++ a').
      split; [apply den_digits13; eauto|]. by apply den_dot. }
    assert (Hrev :
      rev (g1 ++ "."%char :: g2 ++ "."%char :: g3 ++ "."%char :: g4) ++ b
      = rev g4 ++ "."%char :: rev g3 ++ "."%char :: rev g2 ++ "."%char
          :: rev g1 ++ b).
    { repeat (rewrite ?rev_app_distr; simpl; rewrite <- ?app_assoc; simpl).
      reflexivity. }
    rewrite Hrev.
    exists (rev g4 ++ "."%char :: rev g3 ++ "."%char :: rev g2 ++ "."%char
              :: rev g1 ++ b), a'.
    split; [apply den_digits13; eauto|].
    repeat split. unfold at_boundary. rewrite Hy. simpl.
    by rewrite Hyw, Ha.
Qed.

(** ** What [extract_ip] returns *)

Lemma delimited_den line pre m post :
  delimited_at line pre m post ->
  line = pre ++ m ++ post
  ∧ den false ip_re (rev pre) (m ++ post) (rev m ++ rev pre) post.
Proof.
  intros ((-> & Hs) & Hb & Ha). split; [reflexivity|].
  apply den_ip_re. exists m.
  apply no_word_before_iff in Hb. apply no_word_after_iff in Ha. auto.
Qed.

Lemma den_delimited pre rest b' a' :
  den false ip_re (rev pre) rest b' a' ->
  ∃ m, rest = m ++ a' ∧ delimited_at (pre ++ rest) pre m a'.
Proof.
  intros D. apply den_ip_re in D as (m & -> & -> & Hs & Hb & Ha).
  exists m. split; [reflexivity|].
  apply no_word_before_iff in Hb. apply no_word_after_iff in Ha.
  by repeat split.
Qed.

Lemma extract_ip_Some line ip :
  extract_ip line = Some ip ->
  ∃ pre post,
    delimited_at line pre ip post
    ∧ ∀ pre' m' post',
        delimited_at line pre' m' post' -> (length pre <= length pre')%nat.
Proof.
  unfold extract_ip. destruct (search false ip_re line) as [mt|] eqn:E; [|done].
  intros [= <-].
  apply search_Some in E as (pre & post & Hl & D & Hmin).
  exists pre, post. split.
  - apply den_delimited in D as (m & Hm & Hd).
    apply app_inv_tail in Hm as <-. by rewrite Hl.
  - intros pre' m' post' Hd.
    destruct (delimited_den _ _ _ _ Hd) as [Hl' D'].
    destruct (le_lt_dec (length pre) (length pre')) as [|Hlt]; [done|].
    exfalso. eapply Hmin; eauto.
Qed.

Lemma extract_ip_None line :
  extract_ip line = None ->
  ∀ pre m post, ¬ delimited_at line pre m post.
Proof.
  unfold extract_ip. destruct (search false ip_re line) as [mt|] eqn:E; [done|].
  intros _ pre m post Hd.
  destruct (delimited_den _ _ _ _ Hd) as [Hl D].
  eapply search_None; eauto.
Qed.

Lemma digit_group_nonempty g : digit_group g -> g ≠ [].
Proof. intros [Hl _] ->. simpl in Hl. lia. Qed.

Lemma ip_shape_truthy m : ip_shape m -> truthy (Some m) = true.
Proof.
  intros (g1 & g2 & g3 & g4 & -> & Hg1 & _).
  apply digit_group_nonempty in Hg1. by destruct g1.
Qed.

Lemma extract_ip_truthy line ip :
  extract_ip line = Some ip -> truthy (Some ip) = true.
Proof.
  intros H. apply extract_ip_Some in H as (pre & post & ((_ & Hs) & _) & _).
  by apply ip_shape_truthy.
Qed.

(** An address-shaped text has exactly three dots, and digits elsewhere. *)
Lemma digit_group_chars g :
  digit_group g ->
  count_occ ascii_dec g "."%char = 0%nat
  ∧ Forall (fun c => is_digit c = true) g.
Proof.
  intros [_ Hd]. rewrite forallb_forall in Hd. split.
  - apply count_occ_not_In. intros Hin. apply Hd in Hin. discriminate.
  - apply List.Forall_forall. exact Hd.
Qed.

Lemma ip_shape_chars m :
  ip_shape m ->
  count_occ ascii_dec m "."%char = 3%nat
  ∧ Forall (fun c => is_digit c = true ∨ c = "."%char) m.
Proof.
  intros (g1 & g2 & g3 & g4 & -> & Hg1 & Hg2 & Hg3 & Hg4).
  destruct (digit_group_chars _ Hg1) as [C1 F1].
  destruct (digit_group_chars _ Hg2) as [C2 F2].
  destruct (digit_group_chars _ Hg3) as [C3 F3].
  destruct (digit_group_chars _ Hg4) as [C4 F4].
  split.
  - repeat (rewrite ?count_occ_app, ?count_occ_cons_eq by reflexivity).
    rewrite C1, C2, C3, C4. reflexivity.
  - assert (W : ∀ g, Forall (fun c => is_digit c = true) g ->
                 Forall (fun c => is_digit c = true ∨ c = "."%char) g).
    { intros g F. eapply Forall_impl; [exact F|]. simpl. auto. }
    apply Forall_app. split; [auto|]. apply Forall_cons. split; [by right|].
    apply Forall_app. split; [auto|]. apply Forall_cons. split; [by right|].
    apply Forall_app. split; [auto|]. apply Forall_cons. split; [by right|].
    auto.
Qed.

(** At a given position, the delimited address is unique. *)
Lemma delimited_at_unique line pre m1 post1 m2 post2 :
  delimited_at line pre m1 post1 -> delimited_at line pre m2 post2 ->
  m1 = m2 ∧ post1 = post2.
Proof.
  assert (Half : ∀ m1 post1 m2 post2 t,
    ip_shape m1 -> ip_shape m2 -> no_word_after post2 ->
    m1 = m2 ++ t -> post2 = t ++ post1 -> t = []).
  { intros n1 q1 n2 q2 t S1 S2 A2 Hm Hp.
    destruct (ip_shape_chars _ S1) as [C1 F1].
    destruct (ip_shape_chars _ S2) as [C2 F2].
    subst n1. rewrite count_occ_app, C2 in C1.
    destruct t as [|c t]; [reflexivity|exfalso].
    apply Forall_app in F1 as [_ Ft].
    apply Forall_cons in Ft as [[Hc| ->] _].
    - specialize (A2 c). rewrite Hp in A2. simpl in A2.
      rewrite (is_digit_word _ Hc) in A2. by specialize (A2 eq_refl).
    - rewrite count_occ_cons_eq in C1 by reflexivity. lia. }
  intros ((Hl1 & S1) & _ & A1) ((Hl2 & S2) & _ & A2).
  rewrite Hl1 in Hl2. apply app_inv_head in Hl2.
  apply app_eq_app in Hl2 as [t [[Hm Hp]|[Hm Hp]]].
  - pose proof (Half _ _ _ _ _ S1 S2 A2 Hm Hp) as ->.
    rewrite app_nil_r in Hm. simpl in Hp. auto.
  - pose proof (Half _ _ _ _ _ S2 S1 A1 Hm Hp) as ->.
    rewrite app_nil_r in Hm. simpl in Hp. auto.
Qed.

(** One call, with the address known to be non-empty when there is one. *)
Lemma analyze_line_address s line n :
  let s' := analyze_line s line n in
  match extract_ip line with
  | Some a =>
      ip_frequency s' = <[a := freq s a + 1]> (ip_frequency s)
      ∧ unique_ips (stats s') = {[ a ]} ∪ unique_ips (stats s)
      ∧ ddos (attacks s') =
          ddos (attacks s) ++
          (if (100 <? freq s a + 1)
              && negb (existsb (fun e => ip_eqb (dd_ip e) (Some a))
                         (ddos (attacks s)))
           then [{| dd_line := n; dd_ip := Some a;
                    dd_count := freq s a + 1 |}] else [])
  | None =>
      ip_frequency s' = ip_frequency s
      ∧ unique_ips (stats s') = unique_ips (stats s)
      ∧ ddos (attacks s') = ddos (attacks s)
  end.
Proof.
  pose proof (analyze_line_tables s line n) as H. cbv zeta in *.
  destruct (extract_ip line) as [a|] eqn:E; [|exact H].
  by rewrite (extract_ip_truthy _ _ E) in H.
Qed.

Lemma freq_insert s s' a v :
  ip_frequency s' = <[a := v]> (ip_frequency s) ->
  freq s' a = v ∧ ∀ a', a' ≠ a -> ip_frequency s' !! a' = ip_frequency s !! a'.
Proof.
  intros H. unfold freq. rewrite H. split.
  - by rewrite lookup_insert_eq.
  - intros a' Hne. by rewrite lookup_insert_ne.
Qed.

(** ** Addresses seen and keys of the frequency table *)

Lemma analyze_line_unique_dom s line n :
  unique_ips (stats s) = dom (ip_frequency s) ->
  unique_ips (stats (analyze_line s line n))
    = dom (ip_frequency (analyze_line s line n)).
Proof.
  intros H. pose proof (analyze_line_address s line n) as T. cbv zeta in T.
  destruct (extract_ip line) as [a|].
  - destruct T as (-> & -> & _). rewrite dom_insert_L. by rewrite H.
  - destruct T as (-> & -> & _). exact H.
Qed.

Lemma play_unique_dom calls :
  unique_ips (stats (play __init__ calls))
    = dom (ip_frequency (play __init__ calls)).
Proof.
  apply play_ind; [|intros; by apply analyze_line_unique_dom].
  simpl. by rewrite dom_empty_L.
Qed.

Lemma play_unique_ips : ∀ calls s,
  unique_ips (stats (play s calls))
    = list_to_set (omap (fun c => extract_ip (fst c)) calls)
      ∪ unique_ips (stats s).
Proof.
  induction calls as [|[line n] calls IH]; intros s; simpl.
  - by rewrite (left_id_L ∅ (∪)).
  - rewrite IH.
    pose proof (analyze_line_address s line n) as T. cbv zeta in T.
    destruct (extract_ip line) as [a|].
    + destruct T as (_ & -> & _). simpl.
      set (L := list_to_set (omap _ calls)).
      by rewrite (assoc_L (∪)), (comm_L (∪) L).
    + destruct T as (_ & -> & _). reflexivity.
Qed.

Lemma omap_numbered : ∀ file n,
  omap (fun c : str * Z => extract_ip (fst c)) (numbered n file)
    = omap extract_ip file.
Proof.
  induction file as [|line file IH]; intros n; simpl; [reflexivity|].
  by rewrite IH.
Qed.

(** C3: after every call of [analyze_line] on a fresh instance the set of
    addresses recorded as unique is the key set of the frequency table, and
    in every report [unique_ips] is the number of keys of the returned
    [ip_frequency], which are the distinct addresses extracted from the
    lines of the stream. *)
Theorem unique_ips_counts_keys :
  (∀ calls,
     unique_ips (stats (play __init__ calls))
       = dom (ip_frequency (play __init__ calls)))
  ∧ (∀ file,
       let r := run file in
       r_unique_ips (r_stats r) = Z.of_nat (size (dom (r_ip_frequency r)))
       ∧ r_unique_ips (r_stats r) = Z.of_nat (size (r_ip_frequency r))
       ∧ dom (r_ip_frequency r) = list_to_set (omap extract_ip file)).
Proof.
  split; [exact play_unique_dom|].
  intros file. unfold run, analyze_file, finalize. simpl.
  rewrite feed_play.
  pose proof (play_unique_dom (numbered 0 file)) as H.
  split; [by rewrite H|]. split; [by rewrite H, size_dom|].
  rewrite <- H, play_unique_ips, omap_numbered. simpl.
  apply (right_id_L ∅ (∪)).
Qed.

(** ** The DDoS latch *)

Lemma existsb_filter {E : Type} (p : E -> bool) l :
  existsb p l = match List.filter p l with [] => false | _ :: _ => true end.
Proof.
  induction l as [|e l IH]; simpl; [reflexivity|].
  destruct (p e); simpl; [reflexivity|exact IH].
Qed.

Lemma ip_eqb_Some a a' : ip_eqb (Some a') (Some a) = bool_decide (a' = a).
Proof.
  unfold ip_eqb. apply bool_decide_ext. split; [by intros [= ->]|by intros ->].
Qed.

Lemma analyze_line_latch s line n :
  ddos_latch s -> ddos_latch (analyze_line s line n).
Proof.
  intros L a0. pose proof (analyze_line_address s line n) as T. cbv zeta in T.
  unfold ddos_latch, ddos_for in *.
  destruct (extract_ip line) as [a|].
  - destruct T as (F & _ & ->).
    destruct (freq_insert _ _ _ _ F) as [Fa Fo].
    rewrite List.filter_app.
    destruct (decide (a0 = a)) as [->|Hne].
    + rewrite Fa. specialize (L a). rewrite existsb_filter.
      destruct (100 <? freq s a) eqn:E1.
      * destruct L as [e ->]. simpl.
        replace (100 <? freq s a + 1) with true by lia. simpl. eauto.
      * rewrite L. simpl. rewrite andb_true_r.
        destruct (100 <? freq s a + 1) eqn:E2; simpl; [|reflexivity].
        rewrite ip_eqb_Some, bool_decide_eq_true_2 by done. eauto.
    + assert (freq (analyze_line s line n) a0 = freq s a0) as ->.
      { unfold freq. by rewrite Fo. }
      specialize (L a0).
      assert (List.filter (fun e => ip_eqb (dd_ip e) (Some a0))
                (if (100 <? freq s a + 1)
                    && negb (existsb (fun e => ip_eqb (dd_ip e) (Some a))
                               (ddos (attacks s)))
                 then [{| dd_line := n; dd_ip := Some a;
                          dd_count := freq s a + 1 |}] else []) = []) as ->.
      { destruct (_ && _); simpl; [|reflexivity].
        rewrite ip_eqb_Some, bool_decide_eq_false_2; [reflexivity|congruence]. }
      by rewrite app_nil_r.
  - destruct T as (F & _ & ->). unfold freq. rewrite F. apply L.
Qed.

Lemma play_latch calls : ddos_latch (play __init__ calls).
Proof.
  apply play_ind; [|intros; by apply analyze_line_latch].
  intros a. reflexivity.
Qed.

(** C2: in every state reached from a fresh instance, the DDoS list holds at
    most one entry for any address.  A call appends a DDoS event exactly when
    the line has an address whose running count was at most 100 before the
    line and is above 100 after it; the event carries the line number of the
    call and that count, which is 101.  Nothing is appended when the count
    only reaches 100, nor once the count was already above 100. *)
Theorem ddos_once_per_address (calls : list (str * Z)) :
  let s := play __init__ calls in
  (∀ a, (length (ddos_for a s) <= 1)%nat)
  ∧ ∀ line n,
      let s' := analyze_line s line n in
      ddos (attacks s') =
        ddos (attacks s) ++
        match extract_ip line with
        | Some a =>
            if (freq s a <=? 100) && (100 <? freq s' a)
            then [{| dd_line := n; dd_ip := Some a; dd_count := freq s' a |}]
            else []
        | None => []
        end
      ∧ ∀ a, extract_ip line = Some a ->
          ((freq s a <=? 100) && (100 <? freq s' a) = true -> freq s' a = 101)
          ∧ (freq s' a = 100 -> ddos (attacks s') = ddos (attacks s))
          ∧ (100 < freq s a -> ddos (attacks s') = ddos (attacks s)).
Proof.
  cbv zeta. pose proof (play_latch calls) as L.
  set (s := play __init__ calls) in *.
  split.
  { intros a. specialize (L a).
    destruct (100 <? freq s a); [destruct L as [e ->]|rewrite L]; simpl; lia. }
  intros line n.
  pose proof (analyze_line_address s line n) as T. cbv zeta in T.
  destruct (extract_ip line) as [a|].
  - destruct T as (F & _ & D).
    destruct (freq_insert _ _ _ _ F) as [Fa _].
    assert (X : negb (existsb (fun e => ip_eqb (dd_ip e) (Some a))
                        (ddos (attacks s))) = (freq s a <=? 100)).
    { rewrite existsb_filter. specialize (L a). unfold ddos_for in L.
      fold s in L.
      destruct (100 <? freq s a) eqn:E.
      - destruct L as [e ->]. simpl. lia.
      - rewrite L. simpl. lia. }
    rewrite X in D. rewrite D, Fa.
    split; [by rewrite andb_comm|].
    intros ? [= <-]. split; [lia|]. split.
    + intros H100. replace (100 <? freq s a + 1) with false by lia.
      simpl. by rewrite app_nil_r.
    + intros Hgt. replace (freq s a <=? 100) with false by lia.
      rewrite andb_false_r. by rewrite app_nil_r.
  - destruct T as (_ & _ & ->). split; [by rewrite app_nil_r|]. intros ? [=].
Qed.

(** ** The address of a line and its count *)




(** C10: an extracted address is delimited by word boundaries: the character
    before it and the character after it, if any, are not word characters,
    so they are not digits, and a group cut out of a longer run of digits is
    never returned.  From the line [1234.56.7.8] no address is extracted and
    the call leaves the frequency table as it was. *)
Theorem address_needs_word_boundaries :
  (∀ line ip,
     extract_ip line = Some ip ->
     ∃ pre post,
       line = pre ++ ip ++ post ∧ ip_shape ip
       ∧ no_word_before pre ∧ no_word_after post
       ∧ (∀ c, last pre = Some c -> is_digit c = false)
       ∧ (∀ c, head post = Some c -> is_digit c = false))
  ∧ extract_ip "1234.56.7.8"%string = None
  ∧ ∀ s n,
      ip_frequency (analyze_line s "1234.56.7.8"%string n) = ip_frequency s.
Proof.
  assert (W : ∀ c, is_word c = false -> is_digit c = false).
  { intros c Hc. destruct (is_digit c) eqn:Hd; [|reflexivity].
    apply is_digit_word in Hd. congruence. }
  assert (E : extract_ip "1234.56.7.8"%string = None)
    by (vm_compute; reflexivity).
  split; [|split; [exact E|]].
  - intros line ip H.
    destruct (extract_ip_Some _ _ H) as (pre & post & ((Hl & Hs) & Hb & Ha) & _).
    exists pre, post. repeat split; auto.
  - intros s n.
    pose proof (analyze_line_address s "1234.56.7.8"%string n) as T.
    cbv zeta in T. rewrite E in T. by destruct T as (F & _).
Qed.

(** ** Patterns as sets of segments *)

Lemma den_seg ic r b a b' a' :
  den ic r b a b' a' <->
  ∃ m, a = m ++ a' ∧ b' = rev m ++ b ∧ seg ic r b m a'.
Proof.
  unfold seg. split.
  - intros D. destruct (den_span _ _ _ _ _ _ D) as (m & -> & ->). eauto.
  - intros (m & -> & -> & D). exact D.
Qed.

Lemma seg_Seq ic r1 r2 b m a' :
  seg ic (Seq r1 r2) b m a' <->
  ∃ m1 m2, m = m1 ++ m2 ∧ seg ic r1 b m1 (m2 ++ a')
           ∧ seg ic r2 (rev m1 ++ b) m2 a'.
Proof.
  unfold seg. simpl. split.
  - intros (b1 & a1 & D1 & D2).
    destruct (den_span _ _ _ _ _ _ D1) as (m1 & E1 & ->).
    destruct (den_span _ _ _ _ _ _ D2) as (m2 & -> & E2).
    rewrite app_assoc in E1. apply app_inv_tail in E1 as ->.
    exists m1, m2. split; [reflexivity|].
    rewrite <- app_assoc in D1. split; [exact D1|].
    rewrite rev_app_distr, <- app_assoc in D2. exact D2.
  - intros (m1 & m2 & -> & D1 & D2).
    exists (rev m1 ++ b), (m2 ++ a').
    rewrite <- app_assoc. split; [exact D1|].
    rewrite rev_app_distr, <- app_assoc. exact D2.
Qed.

Lemma seg_Alt ic r1 r2 b m a' :
  seg ic (Alt r1 r2) b m a' <-> seg ic r1 b m a' ∨ seg ic r2 b m a'.
Proof. reflexivity. Qed.

Lemma seg_Chr ic c b m a' :
  seg ic (Chr c) b m a' <-> ∃ x, m = [x] ∧ chr_eq ic c x = true.
Proof.
  unfold seg. simpl. split.
  - intros (x & E & _ & H). exists x. split; [|exact H].
    change (x :: a') with ([x] ++ a') in E. by apply app_inv_tail in E.
  - intros (x & -> & H). exists x. auto.
Qed.

Lemma seg_Cls ic k b m a' :
  seg ic (Cls k) b m a' <-> ∃ x, m = [x] ∧ in_class k x = true.
Proof.
  unfold seg. simpl. split.
  - intros (x & E & _ & H). exists x. split; [|exact H].
    change (x :: a') with ([x] ++ a') in E. by apply app_inv_tail in E.
  - intros (x & -> & H). exists x. auto.
Qed.

Lemma seg_Star ic k b m a' :
  seg ic (Star k) b m a' <-> forallb (in_class k) m = true.
Proof.
  unfold seg. simpl. split.
  - intros (m' & E & _ & H). by apply app_inv_tail in E as ->.
  - intros H. exists m. auto.
Qed.

Lemma seg_Plus ic k b m a' :
  seg ic (Plus k) b m a' <-> m ≠ [] ∧ forallb (in_class k) m = true.
Proof.
  unfold Plus. rewrite seg_Seq. split.
  - intros (m1 & m2 & -> & H1 & H2).
    apply seg_Star in H2. apply seg_Cls in H1 as (x & -> & Hx).
    simpl. rewrite Hx, H2. by split.
  - intros [Hne H]. destruct m as [|x m]; [done|]. simpl in H.
    apply andb_true_iff in H as [Hx Hm].
    exists [x], m. split; [reflexivity|]. split.
    + apply seg_Cls. eauto.
    + by apply seg_Star.
Qed.

Lemma seg_EndS ic b m a' :
  seg ic EndS b m a' <-> m = [] ∧ at_end a' = true.
Proof.
  unfold seg. simpl. split.
  - intros (_ & E & H).
    assert (m = []) as ->; [|by split].
    change a' with ([] ++ a') in E at 1. by apply app_inv_tail in E.
  - intros [-> H]. auto.
Qed.

Lemma seg_lit w : ∀ b m a', seg true (lit w) b m a' <-> icase_eq m w.
Proof.
  unfold icase_eq.
  induction w as [|c w IH]; intros b m a'.
  - unfold seg. simpl. split.
    + intros [_ E]. change a' with ([] ++ a') in E at 1.
      by apply app_inv_tail in E as <-.
    + destruct m; [auto|discriminate].
  - change (lit (c :: w)) with (Seq (Chr c) (lit w)). rewrite seg_Seq. split.
    + intros (m1 & m2 & -> & H1 & H2).
      apply seg_Chr in H1 as (x & -> & Hx). apply IH in H2.
      unfold chr_eq in Hx. apply Ascii.eqb_eq in Hx.
      simpl. by rewrite Hx, H2.
    + destruct m as [|x m]; [discriminate|]. simpl. intros [= Hx Hm].
      exists [x], m. split; [reflexivity|]. split.
      * apply seg_Chr. exists x. split; [reflexivity|].
        unfold chr_eq. by apply Ascii.eqb_eq.
      * by apply IH.
Qed.

Lemma matches_seg ic r line :
  matches ic r line = true <->
  ∃ pre m post, line = pre ++ m ++ post ∧ seg ic r (rev pre) m post.
Proof.
  rewrite matches_iff. split.
  - intros (pre & rest & b' & a' & -> & D).
    apply den_seg in D as (m & -> & _ & S). eauto 6.
  - intros (pre & m & post & -> & S). unfold seg in S. eauto 6.
Qed.

(** ** The SQL-injection pattern *)

Lemma seg_words_spaced w1 w2 b m a' :
  seg true (Seq (lit w1) (Seq (Plus Space) (lit w2))) b m a' <->
  ∃ m1 ws m2, m = m1 ++ ws ++ m2
    ∧ icase_eq m1 w1 ∧ ws ≠ [] ∧ all_space ws ∧ icase_eq m2 w2.
Proof.
  rewrite seg_Seq. split.
  - intros (m1 & m' & -> & H1 & H2).
    apply seg_lit in H1. apply seg_Seq in H2 as (ws & m2 & -> & H2 & H3).
    apply seg_Plus in H2 as [Hne Hs]. apply seg_lit in H3.
    exists m1, ws, m2. auto.
  - intros (m1 & ws & m2 & -> & H1 & Hne & Hs & H2).
    exists m1, (ws ++ m2). split; [reflexivity|].
    split; [by apply seg_lit|].
    apply seg_Seq. exists ws, m2. split; [reflexivity|].
    split; [by apply seg_Plus|by apply seg_lit].
Qed.

Lemma all_dot mid : forallb (in_class Dot) mid = true <-> newline ∉ mid.
Proof.
  rewrite forallb_forall. simpl. split.
  - intros H Hin. apply list_elem_of_In, H in Hin.
    by rewrite Ascii.eqb_refl in Hin.
  - intros H c Hin. apply negb_true_iff, Ascii.eqb_neq.
    intros ->. by apply H, list_elem_of_In.
Qed.

Lemma seg_word_before w1 w2 b m a' :
  seg true (Seq (lit w1) (Seq (Star Dot) (lit w2))) b m a' <->
  ∃ m1 mid m2, m = m1 ++ mid ++ m2
    ∧ icase_eq m1 w1 ∧ (newline ∉ mid) ∧ icase_eq m2 w2.
Proof.
  rewrite seg_Seq. split.
  - intros (m1 & m' & -> & H1 & H2).
    apply seg_lit in H1. apply seg_Seq in H2 as (mid & m2 & -> & H2 & H3).
    apply seg_Star, all_dot in H2. apply seg_lit in H3.
    exists m1, mid, m2. auto.
  - intros (m1 & mid & m2 & -> & H1 & Hs & H2).
    exists m1, (mid ++ m2). split; [reflexivity|].
    split; [by apply seg_lit|].
    apply seg_Seq. exists mid, m2. split; [reflexivity|].
    split; [by apply seg_Star, all_dot|by apply seg_lit].
Qed.

Lemma tolower_dash x : unicode_tolower x = "-"%char -> x = "-"%char.
Proof.
  destruct x as [[] [] [] [] [] [] [] []]; vm_compute; congruence.
Qed.

Lemma icase_eq_dashes m : icase_eq m "--"%string <-> m = "--"%string.
Proof.
  unfold icase_eq. split; [|by intros ->].
  destruct m as [|x [|y [|]]]; try discriminate.
  simpl. intros [= Hx Hy].
  change (unicode_tolower "-") with "-"%char in Hx, Hy.
  by rewrite (tolower_dash _ Hx), (tolower_dash _ Hy).
Qed.

Lemma seg_comment b m a' :
  seg true (Seq (lit "--"%string) (Seq (Star Space) EndS)) b m a' <->
  ∃ ws, m = "--"%string ++ ws ∧ all_space ws ∧ at_end a' = true.
Proof.
  rewrite seg_Seq. split.
  - intros (m1 & m' & -> & H1 & H2).
    apply seg_lit, icase_eq_dashes in H1 as ->.
    apply seg_Seq in H2 as (ws & m2 & -> & H2 & H3).
    apply seg_Star in H2. apply seg_EndS in H3 as [-> He].
    exists ws. rewrite app_nil_r. auto.
  - intros (ws & -> & Hs & He).
    exists (list_ascii_of_string "--"), ws. split; [reflexivity|].
    split; [by apply seg_lit, icase_eq_dashes|].
    apply seg_Seq. exists ws, []. rewrite app_nil_r. split; [reflexivity|].
    split; [by apply seg_Star|by apply seg_EndS].
Qed.

Lemma all_space_app ws1 ws2 :
  all_space (ws1 ++ ws2) <-> all_space ws1 ∧ all_space ws2.
Proof. unfold all_space. rewrite forallb_app. apply andb_true_iff. Qed.

Lemma at_end_space a : at_end a = true -> all_space a.
Proof.
  unfold all_space. destruct a as [|c [|]]; simpl; try done.
  intros H. apply Ascii.eqb_eq in H as ->. reflexivity.
Qed.

Lemma sql_matches_spec line :
  matches true sql_re line = true <-> sql_spec line.
Proof.
  rewrite matches_seg. unfold sql_re, sql_spec. cbn [alts]. split.
  - intros (pre & m & post & -> & S).
    rewrite !seg_Alt in S. destruct S as [S|[S|[S|S]]].
    + apply seg_words_spaced in S as (m1 & ws & m2 & -> & H).
      left. exists pre, m1, ws, m2, post.
      split; [|exact H]. by rewrite <- !app_assoc.
    + apply seg_word_before in S as (m1 & mid & m2 & -> & H).
      right. left. exists pre, m1, mid, m2, post.
      split; [|exact H]. by rewrite <- !app_assoc.
    + apply seg_words_spaced in S as (m1 & ws & m2 & -> & H).
      right. right. left. exists pre, m1, ws, m2, post.
      split; [|exact H]. by rewrite <- !app_assoc.
    + apply seg_comment in S as (ws & -> & Hs & He).
      right. right. right. exists pre, (ws ++ post).
      split; [by rewrite <- !app_assoc|].
      apply all_space_app. split; [exact Hs|by apply at_end_space].
  - intros [S|[S|[S|S]]].
    + destruct S as (pre & m1 & ws & m2 & post & -> & H).
      exists pre, (m1 ++ ws ++ m2), post.
      split; [by rewrite <- !app_assoc|].
      rewrite !seg_Alt. left. apply seg_words_spaced. eauto 8.
    + destruct S as (pre & m1 & mid & m2 & post & -> & H).
      exists pre, (m1 ++ mid ++ m2), post.
      split; [by rewrite <- !app_assoc|].
      rewrite !seg_Alt. right. left. apply seg_word_before. eauto 8.
    + destruct S as (pre & m1 & ws & m2 & post & -> & H).
      exists pre, (m1 ++ ws ++ m2), post.
      split; [by rewrite <- !app_assoc|].
      rewrite !seg_Alt. right. right. left. apply seg_words_spaced. eauto 8.
    + destruct S as (pre & ws & -> & Hs).
      exists pre, (list_ascii_of_string "--" ++ ws), [].
      split; [by rewrite app_nil_r|].
      rewrite !seg_Alt. right. right. right. apply seg_comment. eauto.
Qed.

(** ** [str.strip] *)

Lemma lstrip_spec s :
  ∃ l, s = l ++ lstrip s ∧ all_space l
       ∧ ∀ c, head (lstrip s) = Some c -> is_space c = false.
Proof.
  induction s as [|c s (l & E & Hl & Hh)]; simpl.
  - exists []. repeat split. intros c [=].
  - destruct (is_space c) eqn:Hc.
    + exists (c :: l). simpl. rewrite <- E. repeat split; [|exact Hh].
      unfold all_space in *. simpl. by rewrite Hc.
    + exists []. repeat split. simpl. by intros ? [= <-].
Qed.

Lemma strip_spec s :
  ∃ l r, s = l ++ strip s ++ r ∧ all_space l ∧ all_space r
         ∧ (∀ c, head (strip s) = Some c -> is_space c = false)
         ∧ (∀ c, last (strip s) = Some c -> is_space c = false).
Proof.
  unfold strip, rstrip.
  destruct (lstrip_spec s) as (l & E & Hl & Hh).
  destruct (lstrip_spec (rev (lstrip s))) as (r & E' & Hr & Hh').
  set (t := lstrip s) in *. set (u := lstrip (rev t)) in *.
  assert (Et : t = rev u ++ rev r).
  { rewrite <- rev_app_distr, <- E'. by rewrite rev_involutive. }
  exists l, (rev r). split; [by rewrite <- Et|]. split; [exact Hl|].
  split; [|split].
  - unfold all_space in *. rewrite forallb_forall in *.
    intros c Hin. apply Hr. by apply in_rev.
  - intros c Hc. apply Hh. rewrite Et.
    destruct (rev u); [discriminate|]. exact Hc.
  - intros c Hc. apply Hh'.
    rewrite <- (rev_involutive u). destruct (rev u) as [|x v] using rev_ind.
    + discriminate.
    + rewrite last_snoc in Hc. rewrite rev_app_distr. simpl. exact Hc.
Qed.


(** ** The literal patterns *)

Lemma seg_alts_lit (ws : list string) b m a' :
  ws ≠ [] ->
  seg true (alts (map (fun w : string => lit w) ws)) b m a' <->
  ∃ w : string, w ∈ ws ∧ icase_eq m w.
Proof.
  induction ws as [|w ws IH]; [done|]. intros _.
  destruct ws as [|w' ws].
  - simpl. rewrite seg_lit. split.
    + intros H. exists w. split; [by left|exact H].
    + intros (w0 & Hin & H). by apply list_elem_of_singleton in Hin as ->.
  - change (alts (map (fun w : string => lit w) (w :: w' :: ws)))
      with (Alt (lit w) (alts (map (fun w : string => lit w) (w' :: ws)))).
    rewrite seg_Alt, seg_lit, IH by done. split.
    + intros [H|(w0 & Hin & H)].
      * exists w. split; [by left|exact H].
      * exists w0. split; [by right|exact H].
    + intros (w0 & Hin & H). apply elem_of_cons in Hin as [->|Hin]; eauto.
Qed.

Lemma matches_words (ws : list string) line :
  ws ≠ [] ->
  matches true (alts (map (fun w : string => lit w) ws)) line = true <->
  ∃ w : string, w ∈ ws ∧ contains_icase line w.
Proof.
  intros Hne. rewrite matches_seg. unfold contains_icase. split.
  - intros (pre & m & post & -> & S).
    apply seg_alts_lit in S as (w & Hin & H); eauto 8.
  - intros (w & Hin & pre & m & post & -> & H).
    exists pre, m, post. split; [reflexivity|].
    apply seg_alts_lit; eauto.
Qed.


(** ** The theorems at concrete inputs *)

(** The stream of the DDoS scenario: the same address on every line. *)
Lemma ddos_once_per_address_witness :
  let line : str := "203.0.113.9"%string in
  let s := play __init__ (numbered 0 (repeat line 100)) in
  let t := play __init__ (numbered 0 (repeat line 101)) in
  freq s line = 100
  ∧ ddos (attacks s) = []
  ∧ ddos (attacks (analyze_line s line 101)) =
      [{| dd_line := 101; dd_ip := Some line; dd_count := 101 |}]
  ∧ ddos (attacks (analyze_line t line 102)) =
      [{| dd_line := 101; dd_ip := Some line; dd_count := 101 |}].
Proof.
  cbv zeta.
  split; [vm_compute; reflexivity|]. split; [vm_compute; reflexivity|].
  split.
  - rewrite (proj1 (proj2 (ddos_once_per_address
               (numbered 0 (repeat (list_ascii_of_string "203.0.113.9") 100)))
               (list_ascii_of_string "203.0.113.9") 101)).
    vm_compute. reflexivity.
  - rewrite (proj1 (proj2 (ddos_once_per_address
               (numbered 0 (repeat (list_ascii_of_string "203.0.113.9") 101)))
               (list_ascii_of_string "203.0.113.9") 102)).
    vm_compute. reflexivity.
Defined.


Lemma address_needs_word_boundaries_witness :
  ∃ pre post : str,
    list_ascii_of_string "ping 10.0.0.5 ok"
      = pre ++ list_ascii_of_string "10.0.0.5" ++ post
    ∧ no_word_before pre ∧ no_word_after post.
Proof.
  assert (E : extract_ip "ping 10.0.0.5 ok"%string = Some ("10.0.0.5"%string : str))
    by (vm_compute; reflexivity).
  destruct (proj1 address_needs_word_boundaries _ _ E)
    as (pre & post & H1 & _ & H2 & H3 & _).
  exists pre, post. auto.
Defined.


(** ** The scenarios of the specification *)

Example scenario_xss_with_address :
  let line : str := "GET /?x=<script>alert(1)</script> from 10.0.0.5"%string in
  let s' := analyze_line __init__ line 1 in
  extract_ip line = Some ("10.0.0.5"%string : str)
  ∧ xss_count (stats s') = 1
  ∧ freq s' "10.0.0.5"%string = 1.
Proof. vm_compute. repeat split. Qed.

Example scenario_ddos :
  let line : str := "203.0.113.9"%string in
  let r := run (repeat line 101) in
  r_ip_frequency r !! line = Some 101
  ∧ r_ddos_count (r_stats r) = 1
  ∧ r_ddos r = [{| dd_line := 101; dd_ip := Some line; dd_count := 101 |}].
Proof. vm_compute. repeat split. Qed.

Example scenario_no_range_validation :
  extract_ip "from 999.888.777.666:"%string
    = Some ("999.888.777.666"%string : str).
Proof. vm_compute. reflexivity. Qed.

Example scenario_later_address :
  extract_ip "1234.5.6.7.8"%string = Some ("5.6.7.8"%string : str).
Proof. vm_compute. reflexivity. Qed.

(** * Further properties *)

(** ** [allowed_file] *)

Lemma contains_char_iff c s : contains_char c s = true <-> c ∈ s.
Proof.
  unfold contains_char. rewrite existsb_exists. split.
  - intros (x & Hin & E). apply Ascii.eqb_eq in E as ->.
    by apply list_elem_of_In.
  - intros Hin. exists c. split; [by apply list_elem_of_In|].
    apply Ascii.eqb_refl.
Qed.

Lemma rpartition_None sep s : rpartition sep s = None <-> sep ∉ s.
Proof.
  induction s as [|c s IH]; simpl.
  - split; [intros _ H; inversion H|done].
  - destruct (rpartition sep s) as [[h t]|].
    + split; [done|]. intros H. exfalso.
      assert (sep ∉ s) as Hs by (intros ?; apply H; by right).
      apply IH in Hs. discriminate.
    + destruct (Ascii.eqb c sep) eqn:E.
      * apply Ascii.eqb_eq in E as ->. split; [done|].
        intros H. exfalso. apply H. by left.
      * apply Ascii.eqb_neq in E. split; [|done]. intros _ H.
        apply elem_of_cons in H as [->|H]; [done|].
        by apply (proj1 IH).
Qed.

Lemma rpartition_split sep : ∀ s h t,
  rpartition sep s = Some (h, t) -> s = h ++ sep :: t ∧ sep ∉ t.
Proof.
  induction s as [|c s IH]; intros h t; simpl; [done|].
  destruct (rpartition sep s) as [[h' t']|] eqn:R.
  - intros [= <- <-]. destruct (IH _ _ eq_refl) as [-> Ht]. by split.
  - destruct (Ascii.eqb c sep) eqn:E; [|done].
    apply Ascii.eqb_eq in E as ->. intros [= <- <-].
    split; [reflexivity|]. by apply rpartition_None.
Qed.

Lemma rpartition_last sep t : sep ∉ t -> ∀ h,
  rpartition sep (h ++ sep :: t) = Some (h, t).
Proof.
  intros Ht. induction h as [|c h IH]; simpl.
  - apply rpartition_None in Ht as ->. by rewrite Ascii.eqb_refl.
  - by rewrite IH.
Qed.

Lemma elem_of_ALLOWED_EXTENSIONS (x : str) :
  x ∈ ALLOWED_EXTENSIONS
  <-> x = list_ascii_of_string "log" ∨ x = list_ascii_of_string "txt".
Proof.
  unfold ALLOWED_EXTENSIONS.
  by rewrite elem_of_union, !elem_of_singleton.
Qed.

Lemma allowed_file_total (filename : str) :
  ∃ b, allowed_file filename = Some b.
Proof.
  unfold allowed_file, rsplit1.
  destruct (contains_char "." filename) eqn:C; [|eauto].
  destruct (rpartition "." filename) as [[h t]|] eqn:R; simpl; [eauto|].
  apply contains_char_iff in C. by apply rpartition_None in R.
Qed.

Lemma allowed_file_true_iff (filename : str) :
  allowed_file filename = Some true <->
  ∃ ext, has_extension filename ext
         ∧ (icase_eq ext "log"%string ∨ icase_eq ext "txt"%string).
Proof.
  unfold allowed_file, rsplit1, has_extension, icase_eq. split.
  - destruct (contains_char "." filename) eqn:C; [|done].
    destruct (rpartition "." filename) as [[h t]|] eqn:R; simpl; [|done].
    intros [= H]. apply bool_decide_eq_true in H.
    apply elem_of_ALLOWED_EXTENSIONS in H.
    apply rpartition_split in R as [-> Ht].
    exists t. split; [eauto|]. exact H.
  - intros (ext & (base & -> & Hext) & H).
    assert (C : contains_char "." (base ++ "."%char :: ext) = true).
    { apply contains_char_iff. apply elem_of_app. right. by left. }
    rewrite C, (rpartition_last _ _ Hext). simpl. f_equal.
    apply bool_decide_eq_true. by apply elem_of_ALLOWED_EXTENSIONS.
Qed.

(** X1: The index [1] is only taken from a list of two elements: the test
    ['.' in filename] guards it. *)
Theorem allowed_file_never_raises (filename : str) :
  is_Some (allowed_file filename).
Proof.
  destruct (allowed_file_total filename) as [b ->]. eauto.
Qed.

(** X2: A file name is allowed exactly when it has a dot and what follows its
    last dot is [log] or [txt] in any case. *)
Theorem allowed_file_extension (filename : str) :
  allowed_file filename = Some true <->
  ∃ ext, has_extension filename ext
         ∧ (icase_eq ext "log"%string ∨ icase_eq ext "txt"%string).
Proof. apply allowed_file_true_iff. Qed.

(** X3: Only the text from the last dot on is looked at: whatever is put in
    front of a name that has a dot (a directory, [../], more extensions)
    changes nothing, and a name with no dot, or ending in a dot, is refused. *)
Theorem allowed_file_ignores_prefix :
  (∀ pre filename,
     "."%char ∈ filename ->
     allowed_file (pre ++ filename) = allowed_file filename)
  ∧ (∀ filename, "."%char ∉ filename -> allowed_file filename = Some false)
  ∧ (∀ base, allowed_file (base ++ ["."%char]) = Some false).
Proof.
  split; [|split].
  - intros pre filename Hin.
    destruct (rpartition "." filename) as [[h t]|] eqn:R.
    + apply rpartition_split in R as [-> Ht].
      unfold allowed_file, rsplit1.
      assert (C : ∀ p, contains_char "." (p ++ "."%char :: t) = true).
      { intros p. apply contains_char_iff, elem_of_app. right. by left. }
      rewrite app_assoc, !C, !(rpartition_last _ _ Ht). reflexivity.
    + by apply rpartition_None in R.
  - intros filename Hn. unfold allowed_file.
    destruct (contains_char "." filename) eqn:C; [|reflexivity].
    by apply contains_char_iff in C.
  - intros base. unfold allowed_file, rsplit1.
    assert (C : contains_char "." (base ++ ["."%char]) = true).
    { apply contains_char_iff, elem_of_app. right. by left. }
    assert (N : "."%char ∉ ([] : str)) by (intros H; inversion H).
    rewrite C, (rpartition_last _ _ N). reflexivity.
Qed.

Lemma allowed_file_ignores_prefix_witness :
  allowed_file "../../var/www/report.v2.LOG"%string
    = allowed_file "report.v2.LOG"%string
  ∧ allowed_file "report.v2.LOG"%string = Some true.
Proof.
  split; [|reflexivity].
  apply (proj1 allowed_file_ignores_prefix
           (list_ascii_of_string "../../var/www/")
           (list_ascii_of_string "report.v2.LOG")).
  apply contains_char_iff. reflexivity.
Defined.

(** ** The event lists of a report *)

Lemma play_cons self line n calls :
  play self ((line, n) :: calls) = play (analyze_line self line n) calls.
Proof. reflexivity. Qed.

Lemma events_of_cons r line n calls :
  events_of r ((line, n) :: calls) =
    (if matches true r line then [event_of (line, n)] else [])
    ++ events_of r calls.
Proof. unfold events_of. simpl. by destruct (matches true r line). Qed.

Lemma play_cats : ∀ calls s,
  sql_of (play s calls) =
    (sql_injection_count (stats s)
       + Z.of_nat (length (events_of sql_re calls)),
     sql_injection (attacks s) ++ events_of sql_re calls)
  ∧ xss_of (play s calls) =
    (xss_count (stats s) + Z.of_nat (length (events_of xss_re calls)),
     xss (attacks s) ++ events_of xss_re calls)
  ∧ brute_of (play s calls) =
    (brute_force_count (stats s)
       + Z.of_nat (length (events_of brute_re calls)),
     brute_force (attacks s) ++ events_of brute_re calls).
Proof.
  induction calls as [|[line n] calls IH]; intros s.
  - unfold sql_of, xss_of, brute_of, events_of. simpl.
    rewrite !app_nil_r, !Z.add_0_r. auto.
  - rewrite play_cons, !events_of_cons.
    destruct (IH (analyze_line s line n)) as (A & B & C).
    destruct (analyze_line_cats s line n) as (A0 & B0 & C0 & _).
    cbv zeta in *. rewrite A, B, C.
    unfold sql_of, xss_of, brute_of in A0, B0, C0.
    unfold event_of. simpl fst. simpl snd.
    split; [|split].
    + destruct (matches true sql_re line); injection A0 as -> ->;
        simpl; rewrite <- ?app_assoc; f_equal; lia.
    + destruct (matches true xss_re line); injection B0 as -> ->;
        simpl; rewrite <- ?app_assoc; f_equal; lia.
    + destruct (matches true brute_re line); injection C0 as -> ->;
        simpl; rewrite <- ?app_assoc; f_equal; lia.
Qed.

(** X4: The three pattern lists of a report are the lines of the stream that
    match the pattern, in the order of the stream, each with its position in
    the stream counted from 1, its address and its stripped text. *)
Theorem report_lists_are_matching_lines (file : list str) :
  let r := run file in
  r_sql_injection r = events_of sql_re (numbered 0 file)
  ∧ r_xss r = events_of xss_re (numbered 0 file)
  ∧ r_brute_force r = events_of brute_re (numbered 0 file)
  ∧ ∀ i line, file !! i = Some line ->
      numbered 0 file !! i = Some (line, Z.of_nat i + 1).
Proof.
  cbv zeta. unfold run, analyze_file, finalize. simpl. rewrite feed_play.
  destruct (play_cats (numbered 0 file) __init__) as (A & B & C).
  unfold sql_of, xss_of, brute_of in A, B, C. simpl in A, B, C.
  injection A as _ ->. injection B as _ ->. injection C as _ ->.
  repeat split.
  assert (G : ∀ (f : list str) n i line, f !! i = Some line ->
            numbered n f !! i = Some (line, n + Z.of_nat i + 1)).
  { induction f as [|l f IH]; intros n i line H; [done|].
    destruct i as [|i]; simpl in *.
    - injection H as ->. f_equal. f_equal. lia.
    - rewrite (IH _ _ _ H). f_equal. f_equal. lia. }
  intros i line H. by rewrite (G _ 0 _ _ H).
Qed.

(** ** Line order *)

Lemma ordered_upto_step n l l' :
  0 <= n -> ordered_upto n l -> l' = l ∨ l' = l ++ [n + 1] ->
  ordered_upto (n + 1) l'.
Proof.
  intros Hn [Hs Hb] H.
  assert (Hb' : Forall (fun k => 1 <= k <= n + 1) l).
  { eapply Forall_impl; [exact Hb|]. simpl. intros; lia. }
  destruct H as [->| ->]; [by split|]. split.
  - apply StronglySorted_app. repeat split; [|exact Hs|repeat constructor].
    intros x y Hx Hy%list_elem_of_singleton. subst y.
    rewrite Forall_forall in Hb. apply Hb in Hx. lia.
  - apply Forall_app. split; [exact Hb'|]. repeat constructor; lia.
Qed.

Lemma analyze_line_lines s line n :
  let s' := analyze_line s line n in
  let grows {E} (f : E -> Z) (l l' : list E) :=
    map f l' = map f l ∨ map f l' = map f l ++ [n] in
  grows ev_line (sql_injection (attacks s)) (sql_injection (attacks s'))
  ∧ grows ev_line (xss (attacks s)) (xss (attacks s'))
  ∧ grows dd_line (ddos (attacks s)) (ddos (attacks s'))
  ∧ grows ev_line (brute_force (attacks s)) (brute_force (attacks s')).
Proof.
  destruct (analyze_line_cats s line n) as (A & B & C & _).
  pose proof (analyze_line_address s line n) as T.
  cbv zeta in *. unfold sql_of, xss_of, brute_of in *.
  repeat split.
  - destruct (matches true sql_re line); injection A as _ ->;
      [right; by rewrite map_app|by left].
  - destruct (matches true xss_re line); injection B as _ ->;
      [right; by rewrite map_app|by left].
  - destruct (extract_ip line) as [a|].
    + destruct T as (_ & _ & ->). destruct (_ && _).
      * right. by rewrite map_app.
      * left. by rewrite app_nil_r.
    + destruct T as (_ & _ & ->). by left.
  - destruct (matches true brute_re line); injection C as _ ->;
      [right; by rewrite map_app|by left].
Qed.

Lemma feed_ordered : ∀ file s n,
  0 <= n ->
  ordered_upto n (map ev_line (sql_injection (attacks s))) ->
  ordered_upto n (map ev_line (xss (attacks s))) ->
  ordered_upto n (map dd_line (ddos (attacks s))) ->
  ordered_upto n (map ev_line (brute_force (attacks s))) ->
  let s' := feed s n file in
  let m := n + Z.of_nat (length file) in
  ordered_upto m (map ev_line (sql_injection (attacks s')))
  ∧ ordered_upto m (map ev_line (xss (attacks s')))
  ∧ ordered_upto m (map dd_line (ddos (attacks s')))
  ∧ ordered_upto m (map ev_line (brute_force (attacks s'))).
Proof.
  induction file as [|line file IH]; intros s n Hn H1 H2 H3 H4; cbv zeta.
  - simpl. rewrite Z.add_0_r. auto.
  - simpl feed.
    destruct (analyze_line_lines s line (n + 1)) as (G1 & G2 & G3 & G4).
    replace (n + Z.of_nat (length (line :: file)))
      with (n + 1 + Z.of_nat (length file)) by (simpl length; lia).
    apply IH; [lia|..].
    + exact (ordered_upto_step _ _ _ Hn H1 G1).
    + exact (ordered_upto_step _ _ _ Hn H2 G2).
    + exact (ordered_upto_step _ _ _ Hn H3 G3).
    + exact (ordered_upto_step _ _ _ Hn H4 G4).
Qed.

(** X5: In the report of a stream each of the four event lists is in strictly
    increasing order of line number, so a line gives at most one event per
    category, and every line number lies between 1 and the number of lines
    of the stream. *)
Theorem report_lists_in_line_order (file : list str) :
  let r := run file in
  let m := Z.of_nat (length file) in
  ordered_upto m (map ev_line (r_sql_injection r))
  ∧ ordered_upto m (map ev_line (r_xss r))
  ∧ ordered_upto m (map dd_line (r_ddos r))
  ∧ ordered_upto m (map ev_line (r_brute_force r)).
Proof.
  cbv zeta. unfold run, analyze_file, finalize. simpl.
  assert (E : ordered_upto 0 []) by (split; constructor).
  exact (feed_ordered file __init__ 0 (Z.le_refl 0) E E E E).
Qed.

(** ** The frequency table of a report *)

Lemma occurrences_cons a line file :
  occurrences a (line :: file) =
    ((if bool_decide (extract_ip line = Some a) then 1 else 0)
     + occurrences a file)%nat.
Proof. unfold occurrences. simpl. by destruct (bool_decide _). Qed.

Lemma feed_frequency a : ∀ file s n,
  ip_frequency (feed s n file) !! a =
    match ip_frequency s !! a with
    | Some v => Some (v + Z.of_nat (occurrences a file))
    | None =>
        if decide (occurrences a file = 0%nat) then None
        else Some (Z.of_nat (occurrences a file))
    end.
Proof.
  induction file as [|line file IH]; intros s n.
  - simpl. destruct (ip_frequency s !! a); [f_equal; cbn; lia|done].
  - simpl feed. rewrite IH, occurrences_cons.
    pose proof (analyze_line_address s line (n + 1)) as T. cbv zeta in T.
    destruct (extract_ip line) as [a'|].
    + destruct T as (-> & _). unfold freq.
      destruct (decide (a' = a)) as [->|Hne].
      * rewrite lookup_insert_eq, bool_decide_eq_true_2 by done.
        destruct (ip_frequency s !! a); simpl.
        -- f_equal. lia.
        -- f_equal. lia.
      * rewrite lookup_insert_ne, bool_decide_eq_false_2 by congruence.
        reflexivity.
    + destruct T as (-> & _). rewrite bool_decide_eq_false_2 by done.
      reflexivity.
Qed.

(** X6: The frequency table of a report maps an address to the number of lines
    of the stream from which that address is extracted, and has no entry for
    an address extracted from no line: there is no zero count. *)
Theorem report_frequency_counts_lines (file : list str) (a : str) :
  r_ip_frequency (run file) !! a =
    if decide (occurrences a file = 0%nat) then None
    else Some (Z.of_nat (occurrences a file)).
Proof.
  unfold run, analyze_file, finalize. simpl.
  by rewrite feed_frequency.
Qed.

(** ** The DDoS list of a report *)

Lemma feed_app : ∀ f1 f2 s n,
  feed s n (f1 ++ f2) = feed (feed s n f1) (n + Z.of_nat (length f1)) f2.
Proof.
  induction f1 as [|line f1 IH]; intros f2 s n.
  - simpl. by rewrite Z.add_0_r.
  - simpl feed. rewrite IH. f_equal. simpl length. lia.
Qed.

Lemma feed_snoc file line s n :
  feed s n (file ++ [line]) =
    analyze_line (feed s n file) line (n + Z.of_nat (length file) + 1).
Proof. by rewrite feed_app. Qed.

Lemma fresh_freq_occurrences file a :
  freq (feed __init__ 0 file) a = Z.of_nat (occurrences a file).
Proof.
  unfold freq. rewrite feed_frequency. simpl.
  rewrite lookup_empty. destruct (decide _) as [->|]; reflexivity.
Qed.

Lemma occurrences_app a f1 f2 :
  occurrences a (f1 ++ f2) = (occurrences a f1 + occurrences a f2)%nat.
Proof. unfold occurrences. by rewrite List.filter_app, length_app. Qed.

Lemma ddos_for_nonempty a s :
  (∃ e, e ∈ ddos (attacks s) ∧ dd_ip e = Some a) <-> ddos_for a s ≠ [].
Proof.
  unfold ddos_for. split.
  - intros (e & Hin & He) Hnil.
    assert (In e (List.filter (fun e => ip_eqb (dd_ip e) (Some a))
                    (ddos (attacks s)))) as Hf.
    { apply filter_In. split; [by apply list_elem_of_In|].
      rewrite He. unfold ip_eqb. by apply bool_decide_eq_true. }
    rewrite Hnil in Hf. inversion Hf.
  - destruct (List.filter _ _) as [|e l] eqn:F; [done|]. intros _.
    assert (In e (e :: l)) as Hf by (by left). rewrite <- F in Hf.
    apply filter_In in Hf as [Hin He]. exists e.
    split; [by apply list_elem_of_In|].
    unfold ip_eqb in He. by apply bool_decide_eq_true in He.
Qed.

Lemma existsb_ip_false a l :
  existsb (fun e => ip_eqb (dd_ip e) (Some a)) l = false ->
  Some a ∉ map dd_ip l.
Proof.
  intros H Hin. apply list_elem_of_In, in_map_iff in Hin as (e & He & Hin).
  assert (existsb (fun e => ip_eqb (dd_ip e) (Some a)) l = true); [|congruence].
  apply existsb_exists. exists e. split; [exact Hin|].
  unfold ip_eqb. by apply bool_decide_eq_true.
Qed.

Lemma analyze_line_ddos_NoDup s line n :
  NoDup (map dd_ip (ddos (attacks s))) ->
  NoDup (map dd_ip (ddos (attacks (analyze_line s line n)))).
Proof.
  intros H. pose proof (analyze_line_address s line n) as T. cbv zeta in T.
  destruct (extract_ip line) as [a|]; destruct T as (_ & _ & ->); [|exact H].
  destruct (100 <? freq s a + 1); simpl; [|by rewrite app_nil_r].
  destruct (existsb _ _) eqn:X; simpl; [by rewrite app_nil_r|].
  rewrite map_app. simpl. apply NoDup_app. split; [exact H|]. split.
  - intros x Hx Hx'%list_elem_of_singleton. subst x.
    by apply (existsb_ip_false _ _ X).
  - apply NoDup_singleton.
Qed.

(** X7: The DDoS list of a report holds one event for each address extracted
    from more than 100 lines of the stream and for no other address.  The
    event of an address is recorded at the line that is the 101st line with
    that address, and its count is 101 whatever the final frequency is. *)
Theorem report_ddos_events (file : list str) :
  let r := run file in
  (∀ a, (∃ e, e ∈ r_ddos r ∧ dd_ip e = Some a)
        <-> (100 < occurrences a file)%nat)
  ∧ NoDup (map dd_ip (r_ddos r))
  ∧ ∀ e, e ∈ r_ddos r ->
      ∃ a i line,
        dd_ip e = Some a ∧ dd_count e = 101
        ∧ dd_line e = Z.of_nat i + 1
        ∧ file !! i = Some line ∧ extract_ip line = Some a
        ∧ occurrences a (take (S i) file) = 101%nat.
Proof.
  cbv zeta. unfold run, analyze_file, finalize. simpl.
  split; [|split].
  - intros a. rewrite ddos_for_nonempty.
    pose proof (fresh_freq_occurrences file a) as F.
    rewrite feed_play in *.
    pose proof (play_latch (numbered 0 file) a) as L.
    destruct (100 <? freq (play __init__ (numbered 0 file)) a) eqn:E.
    + destruct L as [e ->]. split; [lia|done].
    + rewrite L. split; [done|lia].
  - rewrite feed_play. apply play_ind; [constructor|].
    intros s line n. apply analyze_line_ddos_NoDup.
  - induction file as [|line file IH] using rev_ind; [intros e H; inversion H|].
    intros e. rewrite feed_snoc. rewrite Z.add_0_l.
    pose proof (analyze_line_address (feed __init__ 0 file) line
                  (Z.of_nat (length file) + 1)) as T. cbv zeta in T.
    assert (Old : e ∈ ddos (attacks (feed __init__ 0 file)) ->
      ∃ a i l, dd_ip e = Some a ∧ dd_count e = 101
        ∧ dd_line e = Z.of_nat i + 1
        ∧ (file ++ [line]) !! i = Some l ∧ extract_ip l = Some a
        ∧ occurrences a (take (S i) (file ++ [line])) = 101%nat).
    { intros Hin. destruct (IH e Hin) as (a & i & l & H1 & H2 & H3 & H4 & H5 & H6).
      exists a, i, l. pose proof (lookup_lt_Some _ _ _ H4) as Hi.
      rewrite lookup_app_l by done.
      rewrite take_app_le by lia. auto 10. }
    destruct (extract_ip line) as [a|] eqn:Ea;
      destruct T as (_ & _ & ->); [|exact Old].
    intros Hin. apply elem_of_app in Hin as [Hin|Hin]; [by apply Old|].
    pose proof (fresh_freq_occurrences file a) as F.
    pose proof (play_latch (numbered 0 file) a) as L.
    rewrite <- feed_play in L. unfold ddos_for in L.
    rewrite existsb_filter in Hin.
    destruct (100 <? freq (feed __init__ 0 file) a) eqn:E.
    { destruct L as [e' L]. rewrite L in Hin. simpl in Hin.
      rewrite andb_false_r in Hin. inversion Hin. }
    rewrite L in Hin. simpl in Hin. rewrite andb_true_r in Hin.
    destruct (100 <? freq (feed __init__ 0 file) a + 1) eqn:E'; [|inversion Hin].
    apply list_elem_of_singleton in Hin as ->. simpl.
    exists a, (length file), line.
    split; [reflexivity|]. split; [lia|]. split; [reflexivity|].
    split; [by rewrite lookup_app_r, Nat.sub_diag by lia|].
    split; [exact Ea|].
    rewrite take_ge by (rewrite length_app; simpl; lia).
    rewrite occurrences_app, occurrences_cons.
    rewrite bool_decide_eq_true_2 by done. unfold occurrences at 2. simpl. lia.
Qed.

(** ** Bounds on the figures of a report *)

Lemma events_of_length r calls :
  (length (events_of r calls) <= length calls)%nat.
Proof.
  unfold events_of. rewrite length_map. apply List.filter_length_le.
Qed.

Lemma numbered_length : ∀ file n, length (numbered n file) = length file.
Proof.
  induction file as [|line file IH]; intros n; simpl; [reflexivity|].
  by rewrite IH.
Qed.

Lemma size_list_to_set_le (l : list str) :
  (size (list_to_set l : gset str) <= length l)%nat.
Proof.
  induction l as [|x l IH].
  - rewrite list_to_set_nil, size_empty. simpl. lia.
  - rewrite list_to_set_cons, size_union_alt, size_singleton. simpl length.
    assert (size (list_to_set l ∖ {[x]} : gset str)
            <= size (list_to_set l : gset str))%nat.
    { apply subseteq_size. intros y Hy.
      by apply elem_of_difference in Hy as [? _]. }
    lia.
Qed.

Lemma omap_length_le {A B} (f : A -> option B) l :
  (length (omap f l) <= length l)%nat.
Proof.
  induction l as [|x l IH]; [done|].
  cbn. destruct (f x); cbn in *; lia.
Qed.

Lemma occurrences_split a file :
  length file =
    (occurrences a file
     + length (List.filter
                 (fun line => negb (bool_decide (extract_ip line = Some a)))
                 file))%nat.
Proof.
  unfold occurrences. induction file as [|line file IH]; simpl; [reflexivity|].
  destruct (bool_decide _); simpl; lia.
Qed.

Lemma occurrences_filter_other a a' file :
  a' ≠ a ->
  occurrences a'
    (List.filter (fun line => negb (bool_decide (extract_ip line = Some a)))
       file)
  = occurrences a' file.
Proof.
  intros Hne. unfold occurrences.
  induction file as [|line file IH]; simpl; [reflexivity|].
  destruct (bool_decide (extract_ip line = Some a)) eqn:E; simpl.
  - apply bool_decide_eq_true in E.
    rewrite bool_decide_eq_false_2 by congruence. exact IH.
  - destruct (bool_decide (extract_ip line = Some a')); simpl; by rewrite IH.
Qed.

(** Addresses that each occur on more than 100 lines need 101 lines each. *)
Lemma frequent_addresses_bound : ∀ (addrs : list str) file,
  NoDup addrs ->
  Forall (fun a => (100 < occurrences a file)%nat) addrs ->
  (101 * length addrs <= length file)%nat.
Proof.
  induction addrs as [|a addrs IH]; intros file Hnd Hall; simpl; [lia|].
  apply NoDup_cons in Hnd as [Hnotin Hnd].
  apply Forall_cons in Hall as [Ha Hall].
  set (rest := List.filter
                 (fun line => negb (bool_decide (extract_ip line = Some a)))
                 file).
  assert (Hrest : (101 * length addrs <= length rest)%nat).
  { apply IH; [exact Hnd|]. rewrite Forall_forall in *.
    intros a' Hin. unfold rest. rewrite occurrences_filter_other.
    - by apply Hall.
    - intros ->. done. }
  pose proof (occurrences_split a file). fold rest in H. lia.
Qed.

Lemma ddos_addresses_frequent file :
  let s := feed __init__ 0 file in
  ∃ addrs, map dd_ip (ddos (attacks s)) = map Some addrs
           ∧ Forall (fun a => (100 < occurrences a file)%nat) addrs.
Proof.
  cbv zeta. rewrite feed_play.
  pose proof (play_latch (numbered 0 file)) as L. rewrite <- feed_play in *.
  assert (F := fresh_freq_occurrences file).
  set (s := feed __init__ 0 file) in *.
  assert (G : ∀ l, (∀ e, e ∈ l -> e ∈ ddos (attacks s)) ->
    ∃ addrs, map dd_ip l = map Some addrs
             ∧ Forall (fun a => (100 < occurrences a file)%nat) addrs).
  { induction l as [|e l IH]; intros Hsub.
    - exists []. split; [reflexivity|constructor].
    - destruct IH as (addrs & E & Hall).
      { intros e' He'. apply Hsub. by right. }
      assert (He : e ∈ ddos (attacks s)) by (apply Hsub; by left).
      destruct (dd_ip e) as [a|] eqn:Ea.
      + exists (a :: addrs). simpl. rewrite Ea, E. split; [reflexivity|].
        constructor; [|exact Hall].
        assert (N : ddos_for a s ≠ []) by (apply ddos_for_nonempty; eauto).
        specialize (L a). specialize (F a).
        destruct (100 <? freq s a) eqn:X; [lia|done].
      + exfalso. clear -He Ea.
        revert He. unfold s. rewrite feed_play. apply play_ind.
        * intros H. inversion H.
        * intros s0 line n IH0 Hin.
          pose proof (analyze_line_address s0 line n) as T. cbv zeta in T.
          destruct (extract_ip line) as [a|];
            destruct T as (_ & _ & D); rewrite D in Hin; [|by apply IH0].
          apply elem_of_app in Hin as [Hin|Hin]; [by apply IH0|].
          destruct (_ && _); [|inversion Hin].
          apply list_elem_of_singleton in Hin as ->. discriminate. }
  apply G. auto.
Qed.

(** X8: In the report of a stream of [m] lines each of the three pattern counts
    and [unique_ips] lie between 0 and [m]; a DDoS event takes 101 lines with
    one address, so 101 times [ddos_count] is at most [m], and 101 times
    [total_attacks] is at most 304 times [m]. *)
Theorem report_bounds (file : list str) :
  let r := r_stats (run file) in
  let m := Z.of_nat (length file) in
  0 <= r_sql_injection_count r <= m
  ∧ 0 <= r_xss_count r <= m
  ∧ 0 <= r_brute_force_count r <= m
  ∧ 0 <= r_unique_ips r <= m
  ∧ 0 <= 101 * r_ddos_count r <= m
  ∧ 0 <= 101 * r_total_attacks r <= 304 * m.
Proof.
  cbv zeta. unfold run, analyze_file, finalize. simpl.
  destruct (ddos_addresses_frequent file) as (addrs & Ea & Hall).
  cbv zeta in Ea.
  assert (Hnd : NoDup (map dd_ip (ddos (attacks (feed __init__ 0 file))))).
  { rewrite feed_play. apply play_ind; [constructor|].
    intros s line n. apply analyze_line_ddos_NoDup. }
  rewrite feed_play in *.
  destruct (play_cats (numbered 0 file) __init__) as (A & B & C).
  destruct (play_counts_ok (numbered 0 file)) as (_ & _ & D & _).
  pose proof (play_unique_ips (numbered 0 file) __init__) as U.
  set (s := play __init__ (numbered 0 file)) in *.
  unfold sql_of, xss_of, brute_of in A, B, C. simpl in A, B, C, U.
  injection A as -> _. injection B as -> _. injection C as -> _.
  pose proof (events_of_length sql_re (numbered 0 file)) as L1.
  pose proof (events_of_length xss_re (numbered 0 file)) as L2.
  pose proof (events_of_length brute_re (numbered 0 file)) as L3.
  rewrite numbered_length in L1, L2, L3.
  assert (L4 : (size (unique_ips (stats s)) <= length file)%nat).
  { rewrite U, (right_id_L ∅ (∪)).
    etransitivity; [apply size_list_to_set_le|].
    etransitivity; [apply omap_length_le|]. by rewrite numbered_length. }
  assert (L5 : (101 * length (ddos (attacks s)) <= length file)%nat).
  { rewrite <- (length_map dd_ip), Ea, length_map.
    apply frequent_addresses_bound; [|exact Hall].
    rewrite Ea in Hnd. clear -Hnd.
    induction addrs as [|a addrs IH]; [constructor|].
    simpl in Hnd. apply NoDup_cons in Hnd as [H1 H2].
    constructor; [|by apply IH].
    intros Hin. apply H1. apply list_elem_of_In, in_map, list_elem_of_In, Hin. }
  rewrite D. lia.
Qed.

(** ** The addresses of a report *)








(** ** Streams in two parts *)

Lemma numbered_app : ∀ f1 f2 n,
  numbered n (f1 ++ f2)
    = numbered n f1 ++ numbered (n + Z.of_nat (length f1)) f2.
Proof.
  induction f1 as [|line f1 IH]; intros f2 n; simpl.
  - by rewrite Z.add_0_r.
  - rewrite IH. do 3 f_equal. lia.
Qed.

Lemma numbered_shift : ∀ file n,
  numbered n file = map (fun c => (fst c, snd c + n)) (numbered 0 file).
Proof.
  assert (G : ∀ file n k,
    numbered (n + k) file = map (fun c => (fst c, snd c + k)) (numbered n file)).
  { induction file as [|line file IH]; intros n k; simpl; [reflexivity|].
    f_equal; [f_equal; lia|].
    replace (n + k + 1) with (n + 1 + k) by lia. apply IH. }
  intros file n. by rewrite <- (G file 0 n).
Qed.

Lemma events_of_app r c1 c2 :
  events_of r (c1 ++ c2) = events_of r c1 ++ events_of r c2.
Proof. unfold events_of. by rewrite List.filter_app, map_app. Qed.

Lemma events_of_shift r k calls :
  events_of r (map (fun c => (fst c, snd c + k)) calls)
    = map (shift_event k) (events_of r calls).
Proof.
  induction calls as [|[line n] calls IH]; [reflexivity|].
  simpl map at 1. rewrite !events_of_cons, map_app, IH.
  by destruct (matches true r line).
Qed.

Lemma feed_ddos_prefix : ∀ file s n,
  ddos (attacks s) `prefix_of` ddos (attacks (feed s n file)).
Proof.
  induction file as [|line file IH]; intros s n; simpl; [done|].
  etransitivity; [|apply IH].
  pose proof (analyze_line_address s line (n + 1)) as T. cbv zeta in T.
  destruct (extract_ip line); destruct T as (_ & _ & ->);
    [apply prefix_app_r|]; done.
Qed.

Lemma feed_cats file s n :
  let s' := feed s n file in
  let calls := numbered n file in
  sql_of s' =
    (sql_injection_count (stats s)
       + Z.of_nat (length (events_of sql_re calls)),
     sql_injection (attacks s) ++ events_of sql_re calls)
  ∧ xss_of s' =
    (xss_count (stats s) + Z.of_nat (length (events_of xss_re calls)),
     xss (attacks s) ++ events_of xss_re calls)
  ∧ brute_of s' =
    (brute_force_count (stats s)
       + Z.of_nat (length (events_of brute_re calls)),
     brute_force (attacks s) ++ events_of brute_re calls).
Proof. cbv zeta. rewrite feed_play. apply play_cats. Qed.

(** X10: The report of a stream made of two parts, from the reports of the parts:
    each pattern list is the list of the first part followed by the list of
    the second part with its line numbers moved down by the length of the
    first; the pattern counts and the frequencies add up.  The DDoS list of
    the first part is kept as the beginning of the DDoS list of the whole,
    but the DDoS lists do not add up: the latch counts over the whole. *)
Theorem report_of_concatenation (f1 f2 : list str) :
  let r := run (f1 ++ f2) in
  let r1 := run f1 in
  let r2 := run f2 in
  let k := Z.of_nat (length f1) in
  r_sql_injection r
    = r_sql_injection r1 ++ map (shift_event k) (r_sql_injection r2)
  ∧ r_xss r = r_xss r1 ++ map (shift_event k) (r_xss r2)
  ∧ r_brute_force r
    = r_brute_force r1 ++ map (shift_event k) (r_brute_force r2)
  ∧ r_sql_injection_count (r_stats r)
    = r_sql_injection_count (r_stats r1) + r_sql_injection_count (r_stats r2)
  ∧ r_xss_count (r_stats r) = r_xss_count (r_stats r1) + r_xss_count (r_stats r2)
  ∧ r_brute_force_count (r_stats r)
    = r_brute_force_count (r_stats r1) + r_brute_force_count (r_stats r2)
  ∧ (∀ a, report_freq r a = report_freq r1 a + report_freq r2 a)
  ∧ r_ddos r1 `prefix_of` r_ddos r.
Proof.
  cbv zeta. unfold run, analyze_file, finalize, report_freq. simpl.
  destruct (feed_cats (f1 ++ f2) __init__ 0) as (A & B & C).
  destruct (feed_cats f1 __init__ 0) as (A1 & B1 & C1).
  destruct (feed_cats f2 __init__ 0) as (A2 & B2 & C2).
  cbv zeta in *. unfold sql_of, xss_of, brute_of in *. simpl in *.
  rewrite numbered_app, !events_of_app, !Z.add_0_l in A, B, C.
  rewrite (numbered_shift f2 (Z.of_nat (length f1))) in A, B, C.
  rewrite !events_of_shift, !length_app, !length_map in A, B, C.
  injection A as -> ->. injection B as -> ->. injection C as -> ->.
  injection A1 as -> ->. injection B1 as -> ->. injection C1 as -> ->.
  injection A2 as -> ->. injection B2 as -> ->. injection C2 as -> ->.
  repeat split; try lia.
  - intros a.
    pose proof (fresh_freq_occurrences (f1 ++ f2) a) as F.
    pose proof (fresh_freq_occurrences f1 a) as F1.
    pose proof (fresh_freq_occurrences f2 a) as F2.
    unfold freq in *. rewrite F, F1, F2, occurrences_app. lia.
  - rewrite feed_app. apply feed_ddos_prefix.
Qed.


(** ** White space at the end of a line *)

Lemma is_space_lower c : is_space (unicode_tolower c) = is_space c.
Proof. destruct c as [[] [] [] [] [] [] [] []]; reflexivity. Qed.

Lemma is_space_not_word c : is_space c = true -> is_word c = false.
Proof. destruct c as [[] [] [] [] [] [] [] []]; vm_compute; congruence. Qed.

Lemma all_space_elem ws c : all_space ws -> c ∈ ws -> is_space c = true.
Proof.
  unfold all_space. rewrite forallb_forall. intros H Hin.
  by apply H, list_elem_of_In.
Qed.

(** A segment that ends with a character other than white space lies
    before the white space that ends the line. *)
Lemma segment_before_trailing line ws pre m post :
  all_space ws -> ends_nonspace m ->
  line ++ ws = pre ++ m ++ post ->
  ∃ post', post = post' ++ ws ∧ line = pre ++ m ++ post'.
Proof.
  intros Hws (m' & c & -> & Hc) E.
  rewrite (app_assoc pre) in E.
  apply app_eq_app in E as [t [[E1 E2]|[E1 E2]]].
  - exists t. split; [exact E2|]. by rewrite E1, <- app_assoc.
  - destruct t as [|x t _] using rev_ind.
    + exists []. rewrite app_nil_r in E1. simpl in *.
      split; [by symmetry|]. by rewrite app_nil_r, E1.
    + exfalso. rewrite !app_assoc in E1.
      apply app_inj_tail in E1 as [_ <-].
      assert (is_space c = true); [|congruence].
      apply (all_space_elem ws); [exact Hws|]. rewrite E2.
      apply elem_of_app. left. apply elem_of_app. right. by left.
Qed.

Lemma icase_eq_ends_nonspace m w :
  icase_eq m w -> ends_nonspace w -> ends_nonspace m.
Proof.
  unfold icase_eq. intros E (w' & c & -> & Hc).
  destruct m as [|x m _] using rev_ind.
  - rewrite map_app in E. simpl in E. by destruct (map _ w').
  - exists m, x. split; [reflexivity|].
    rewrite !map_app in E. simpl in E. apply app_inj_tail in E as [_ E].
    by rewrite <- is_space_lower, E, is_space_lower.
Qed.

Lemma contains_icase_trailing line ws w :
  all_space ws -> ends_nonspace w ->
  contains_icase (line ++ ws) w <-> contains_icase line w.
Proof.
  intros Hws Hw. unfold contains_icase. split.
  - intros (pre & m & post & E & Hm).
    destruct (segment_before_trailing _ _ _ _ _ Hws
                (icase_eq_ends_nonspace _ _ Hm Hw) E) as (post' & _ & ->).
    eauto.
  - intros (pre & m & post & -> & Hm).
    exists pre, m, (post ++ ws). split; [|exact Hm].
    by rewrite <- !app_assoc.
Qed.

Lemma bool_eq_iff (b1 b2 : bool) : (b1 = true <-> b2 = true) -> b1 = b2.
Proof. destruct b1, b2; intuition congruence. Qed.

Lemma ends_nonspace_string (w' : str) (c : ascii) :
  is_space c = false -> ends_nonspace (w' ++ [c]).
Proof. intros H. by exists w', c. Qed.

Lemma matches_words_trailing (words : list string) line ws :
  words ≠ [] ->
  (∀ w : string, w ∈ words -> ends_nonspace w) ->
  all_space ws ->
  matches true (alts (map (fun w : string => lit w) words)) (line ++ ws)
  = matches true (alts (map (fun w : string => lit w) words)) line.
Proof.
  intros Hne Hall Hws. apply bool_eq_iff.
  rewrite !matches_words by done. split.
  - intros (w & Hin & H). exists w. split; [exact Hin|].
    by apply (contains_icase_trailing line ws w Hws (Hall w Hin)).
  - intros (w & Hin & H). exists w. split; [exact Hin|].
    by apply (contains_icase_trailing line ws w Hws (Hall w Hin)).
Qed.

Lemma xss_words_end_nonspace (w : string) : w ∈ xss_words -> ends_nonspace w.
Proof.
  unfold xss_words. intros H.
  repeat (apply elem_of_cons in H as [->|H]);
    [..|inversion H];
    match goal with
    | |- ends_nonspace (list_ascii_of_string ?s) =>
        let l := eval cbv in (list_ascii_of_string s) in
        let r := eval cbv in (rev l) in
        match r with
        | ?c :: ?t => let t' := eval cbv in (rev t) in
                      exact (ends_nonspace_string t' c eq_refl)
        end
    end.
Qed.

Lemma brute_words_end_nonspace (w : string) :
  w ∈ brute_words -> ends_nonspace w.
Proof.
  unfold brute_words. intros H.
  repeat (apply elem_of_cons in H as [->|H]);
    [..|inversion H];
    match goal with
    | |- ends_nonspace (list_ascii_of_string ?s) =>
        let l := eval cbv in (list_ascii_of_string s) in
        let r := eval cbv in (rev l) in
        match r with
        | ?c :: ?t => let t' := eval cbv in (rev t) in
                      exact (ends_nonspace_string t' c eq_refl)
        end
    end.
Qed.

Lemma ends_nonspace_word (s : string) (w' : str) (c : ascii) :
  list_ascii_of_string s = w' ++ [c] -> is_space c = false ->
  ends_nonspace (list_ascii_of_string s).
Proof. intros -> H. by exists w', c. Qed.

Lemma sql_spec_trailing line ws :
  all_space ws -> sql_spec (line ++ ws) <-> sql_spec line.
Proof.
  intros Hws.
  assert (Hsel : ends_nonspace (list_ascii_of_string "select")).
  { by apply (ends_nonspace_word _ (list_ascii_of_string "selec") "t"). }
  assert (Hfrom : ends_nonspace (list_ascii_of_string "from")).
  { by apply (ends_nonspace_word _ (list_ascii_of_string "fro") "m"). }
  assert (Htab : ends_nonspace (list_ascii_of_string "table")).
  { by apply (ends_nonspace_word _ (list_ascii_of_string "tabl") "e"). }
  assert (Hdash : ends_nonspace (list_ascii_of_string "--")).
  { by apply (ends_nonspace_word _ ["-"%char] "-"). }
  assert (WS : ∀ w1 w2, ends_nonspace w2 ->
            words_spaced w1 w2 (line ++ ws) <-> words_spaced w1 w2 line).
  { intros w1 w2 Hw2. unfold words_spaced. split.
    - intros (pre & m1 & sp & m2 & post & E & H1 & H2 & H3 & H4).
      rewrite !(app_assoc _ _ (m2 ++ post)) in E.
      destruct (segment_before_trailing _ _ _ _ _ Hws
                  (icase_eq_ends_nonspace _ _ H4 Hw2) E) as (post' & _ & ->).
      exists pre, m1, sp, m2, post'. rewrite <- !app_assoc. auto.
    - intros (pre & m1 & sp & m2 & post & -> & H).
      exists pre, m1, sp, m2, (post ++ ws). rewrite <- !app_assoc. auto. }
  assert (WB : ∀ w1 w2, ends_nonspace w2 ->
            word_before w1 w2 (line ++ ws) <-> word_before w1 w2 line).
  { intros w1 w2 Hw2. unfold word_before. split.
    - intros (pre & m1 & mid & m2 & post & E & H1 & H2 & H4).
      rewrite !(app_assoc _ _ (m2 ++ post)) in E.
      destruct (segment_before_trailing _ _ _ _ _ Hws
                  (icase_eq_ends_nonspace _ _ H4 Hw2) E) as (post' & _ & ->).
      exists pre, m1, mid, m2, post'. rewrite <- !app_assoc. auto.
    - intros (pre & m1 & mid & m2 & post & -> & H).
      exists pre, m1, mid, m2, (post ++ ws). rewrite <- !app_assoc. auto. }
  assert (EC : ends_with_comment (line ++ ws) <-> ends_with_comment line).
  { unfold ends_with_comment. split.
    - intros (pre & ws2 & E & H).
      destruct (segment_before_trailing _ _ _ _ _ Hws Hdash E)
        as (post' & -> & ->).
      exists pre, post'. split; [reflexivity|].
      by apply all_space_app in H as [H _].
    - intros (pre & ws0 & -> & H).
      exists pre, (ws0 ++ ws). rewrite <- !app_assoc.
      split; [reflexivity|]. by apply all_space_app. }
  unfold sql_spec. rewrite !WS, WB, EC by assumption. reflexivity.
Qed.

Lemma lstrip_all_space ws x : all_space ws -> lstrip (ws ++ x) = lstrip x.
Proof.
  unfold all_space. induction ws as [|c ws IH]; simpl; [done|].
  intros H. apply andb_true_iff in H as [-> H]. auto.
Qed.

Lemma lstrip_app x y :
  lstrip (x ++ y) = if forallb is_space x then lstrip y else lstrip x ++ y.
Proof.
  induction x as [|c x IH]; simpl; [reflexivity|].
  destruct (is_space c); simpl; [exact IH|reflexivity].
Qed.

Lemma lstrip_nil_all_space x : forallb is_space x = true -> lstrip x = [].
Proof.
  induction x as [|c x IH]; simpl; [done|].
  intros H. apply andb_true_iff in H as [-> H]. auto.
Qed.

Lemma strip_trailing line ws : all_space ws -> strip (line ++ ws) = strip line.
Proof.
  intros Hws. unfold strip, rstrip. rewrite lstrip_app.
  destruct (forallb is_space line) eqn:E.
  - rewrite (lstrip_nil_all_space _ Hws), (lstrip_nil_all_space _ E).
    reflexivity.
  - f_equal. rewrite rev_app_distr. apply lstrip_all_space.
    unfold all_space in *. rewrite forallb_forall in *.
    intros c Hc. apply Hws. by apply in_rev.
Qed.

Lemma ip_shape_ends_nonspace m : ip_shape m -> ends_nonspace m.
Proof.
  intros (g1 & g2 & g3 & g4 & -> & _ & _ & _ & [Hl Hd]).
  destruct g4 as [|c g4 _] using rev_ind; [simpl in Hl; lia|].
  exists (g1 ++ "."%char :: g2 ++ "."%char :: g3 ++ "."%char :: g4), c.
  split; [by repeat (rewrite <- ?app_assoc; cbn [app])|].
  rewrite forallb_app in Hd. apply andb_true_iff in Hd as [_ Hd].
  simpl in Hd. rewrite andb_true_r in Hd.
  destruct (is_space c) eqn:Hs; [|reflexivity].
  apply is_space_not_word in Hs. apply is_digit_word in Hd. congruence.
Qed.

Lemma delimited_at_trailing line ws pre m post :
  all_space ws ->
  delimited_at (line ++ ws) pre m post <->
  ∃ post', post = post' ++ ws ∧ delimited_at line pre m post'.
Proof.
  intros Hws. unfold delimited_at, shaped_at. split.
  - intros ((E & Hs) & Hb & Ha).
    destruct (segment_before_trailing _ _ _ _ _ Hws
                (ip_shape_ends_nonspace _ Hs) E) as (post' & -> & ->).
    exists post'. repeat split; auto.
    intros c Hc. apply Ha. by destruct post'.
  - intros (post' & -> & (-> & Hs) & Hb & Ha).
    repeat split; auto; [by rewrite <- !app_assoc|].
    intros c Hc. destruct post' as [|x post']; simpl in Hc.
    + apply is_space_not_word, (all_space_elem ws); [exact Hws|].
      destruct ws; [done|]. injection Hc as ->. by left.
    + by apply Ha.
Qed.

Lemma extract_ip_trailing line ws :
  all_space ws -> extract_ip (line ++ ws) = extract_ip line.
Proof.
  intros Hws.
  destruct (extract_ip line) as [ip|] eqn:E.
  - destruct (extract_ip_Some _ _ E) as (pre & post & Hd & Hmin).
    assert (Hd' : delimited_at (line ++ ws) pre ip (post ++ ws))
      by (apply delimited_at_trailing; eauto).
    destruct (extract_ip (line ++ ws)) as [ip'|] eqn:E'.
    + f_equal.
      destruct (extract_ip_Some _ _ E') as (pre' & post' & Hd2 & Hmin').
      pose proof (Hmin' _ _ _ Hd') as L1.
      apply delimited_at_trailing in Hd2 as (q & -> & Hd2); [|exact Hws].
      pose proof (Hmin _ _ _ Hd2) as L2.
      assert (pre' = pre) as ->.
      { destruct Hd as ((El & _) & _). destruct Hd2 as ((El2 & _) & _).
        rewrite El in El2. symmetry.
        by apply app_inj_1 in El2 as [? _]; [|lia]. }
      by destruct (delimited_at_unique _ _ _ _ _ _ Hd2 Hd).
    + exfalso. by apply (extract_ip_None _ E' _ _ _ Hd').
  - destruct (extract_ip (line ++ ws)) as [ip'|] eqn:E'; [|reflexivity].
    exfalso.
    destruct (extract_ip_Some _ _ E') as (pre' & post' & Hd2 & _).
    apply delimited_at_trailing in Hd2 as (q & -> & Hd2); [|exact Hws].
    by apply (extract_ip_None _ E _ _ _ Hd2).
Qed.

Lemma analyze_line_same_view s line line' n :
  extract_ip line' = extract_ip line ->
  matches true sql_re line' = matches true sql_re line ->
  matches true xss_re line' = matches true xss_re line ->
  matches true brute_re line' = matches true brute_re line ->
  strip line' = strip line ->
  analyze_line s line' n = analyze_line s line n.
Proof.
  intros E1 E2 E3 E4 E5.
  unfold analyze_line, check_sql, check_xss, check_brute.
  by rewrite E1, E2, E3, E4, E5.
Qed.

Lemma analyze_line_trailing s line ws n :
  all_space ws -> analyze_line s (line ++ ws) n = analyze_line s line n.
Proof.
  intros Hws. apply analyze_line_same_view.
  - by apply extract_ip_trailing.
  - apply bool_eq_iff. rewrite !sql_matches_spec.
    by apply sql_spec_trailing.
  - apply matches_words_trailing;
      [done|apply xss_words_end_nonspace|exact Hws].
  - apply matches_words_trailing;
      [done|apply brute_words_end_nonspace|exact Hws].
  - by apply strip_trailing.
Qed.

(** X12: White space at the end of a line (the line terminator that the iteration
    over the file leaves there, [\n] or [\r\n], blanks, tabs) has no effect:
    the call records the same address, the same events and the same counts
    as for the line without it; so a stream gives the same report with and
    without its line terminators. *)
Theorem trailing_whitespace_is_ignored :
  (∀ s line ws n,
     all_space ws -> analyze_line s (line ++ ws) n = analyze_line s line n)
  ∧ (∀ file, run (map (fun line => line ++ [newline]) file) = run file).
Proof.
  split; [exact analyze_line_trailing|].
  intros file. unfold run, analyze_file. f_equal. f_equal.
  generalize __init__ 0.
  induction file as [|line file IH]; intros s n; simpl; [reflexivity|].
  rewrite analyze_line_trailing by reflexivity. apply IH.
Qed.

Lemma trailing_whitespace_is_ignored_witness :
  analyze_line __init__
    (list_ascii_of_string "GET /?q=1 union select 2 from 10.0.0.5"
       ++ [ascii_of_nat 13; newline]) 3
  = analyze_line __init__
      (list_ascii_of_string "GET /?q=1 union select 2 from 10.0.0.5") 3.
Proof.
  apply (proj1 trailing_whitespace_is_ignored). reflexivity.
Defined.

(** ** The order on file names *)

Lemma str_ltb_irrefl a : str_ltb a a = false.
Proof.
  induction a as [|x a IH]; simpl; [reflexivity|].
  by rewrite N.ltb_irrefl.
Qed.

(** [a <= b] is [negb (b < a)]; it is transitive and total. *)
Lemma str_le_trans : ∀ a b c,
  str_ltb b a = false -> str_ltb c b = false -> str_ltb c a = false.
Proof.
  induction a as [|x a IH]; intros b c Hab Hbc.
  - destruct c; [reflexivity|]. destruct b; simpl in *; congruence.
  - destruct b as [|y b]; [by destruct c|].
    destruct c as [|z c]; [simpl in Hbc; done|].
    simpl in *.
    destruct (N.ltb_spec (ord y) (ord x)); [done|].
    destruct (N.ltb_spec (ord x) (ord y)).
    + destruct (N.ltb_spec (ord z) (ord y)); [done|].
      destruct (N.ltb_spec (ord z) (ord x)); [lia|].
      destruct (N.ltb_spec (ord x) (ord z)); [reflexivity|lia].
    + destruct (N.ltb_spec (ord z) (ord y)); [done|].
      destruct (N.ltb_spec (ord y) (ord z)).
      * destruct (N.ltb_spec (ord z) (ord x)); [lia|].
        destruct (N.ltb_spec (ord x) (ord z)); [reflexivity|lia].
      * destruct (N.ltb_spec (ord z) (ord x)); [lia|].
        destruct (N.ltb_spec (ord x) (ord z)); [lia|]. eauto.
Qed.

Lemma str_ltb_le a b : str_ltb a b = true -> str_ltb b a = false.
Proof.
  revert b. induction a as [|x a IH]; intros [|y b]; simpl; try done.
  destruct (N.ltb_spec (ord x) (ord y)).
  - intros _. destruct (N.ltb_spec (ord y) (ord x)); [lia|reflexivity].
  - destruct (N.ltb_spec (ord y) (ord x)); [done|]. apply IH.
Qed.

Lemma max_fold_spec : ∀ l x,
  let m := fold_left (fun m y => if str_ltb m y then y else m) l x in
  m ∈ x :: l ∧ str_ltb m x = false ∧ ∀ y, y ∈ l -> str_ltb m y = false.
Proof.
  induction l as [|z l IH]; intros x; cbv zeta; simpl.
  - split; [by left|]. split; [apply str_ltb_irrefl|].
    intros y H. inversion H.
  - destruct (str_ltb x z) eqn:E.
    + destruct (IH z) as (Hin & Hz & Hall). cbv zeta in *.
      split; [by right|]. split.
      * eapply str_le_trans; [|exact Hz]. by apply str_ltb_le.
      * intros y Hy. apply elem_of_cons in Hy as [->|Hy]; auto.
    + destruct (IH x) as (Hin & Hx & Hall). cbv zeta in *.
      split.
      * apply elem_of_cons in Hin as [->|Hin]; [by left|]. right. by right.
      * split; [exact Hx|]. intros y Hy.
        apply elem_of_cons in Hy as [->|Hy]; [|auto].
        eapply str_le_trans; [exact E|exact Hx].
Qed.

Lemma max_str_spec l m :
  max_str l = Some m -> m ∈ l ∧ ∀ y, y ∈ l -> str_ltb m y = false.
Proof.
  destruct l as [|x l]; [done|]. simpl. intros [= <-].
  destruct (max_fold_spec l x) as (Hin & Hx & Hall). cbv zeta in *.
  split; [exact Hin|]. intros y Hy.
  apply elem_of_cons in Hy as [->|Hy]; auto.
Qed.






(** ** The handlers *)

Lemma startswith_spec s p : startswith s p = true <-> ∃ t, s = p ++ t.
Proof.
  revert s. induction p as [|c p IH]; intros s; simpl.
  - split; [eauto|]. intros _. by destruct s.
  - destruct s as [|x s].
    { split; [done|]. intros (t & H). discriminate H. }
    simpl. rewrite andb_true_iff, IH. split.
    + intros (E & t & ->). apply Ascii.eqb_eq in E as ->. eauto.
    + intros (t & [= -> ->]). split; [apply Ascii.eqb_refl|eauto].
Qed.

Lemma path_join_result m :
  startswith m (list_ascii_of_string "analysis_result_") = true ->
  path_join UPLOAD_FOLDER m = list_ascii_of_string "uploads/" ++ m.
Proof.
  intros H. apply startswith_spec in H as (t & ->). reflexivity.
Qed.

Lemma filter_startswith_elem (p x : str) names :
  x ∈ List.filter (fun f => startswith f p) names
  <-> x ∈ names ∧ startswith x p = true.
Proof.
  rewrite !list_elem_of_In.
  apply (filter_In (fun f => startswith f p) x names).
Qed.

Section HandlerFacts.
Variable World : Type.
Variable now_strftime : World -> World * str.
Variable os_makedirs : str -> IO World unit.
Variable json_dump_to : str -> Report -> IO World unit.
Variable os_listdir : str -> IO World (list str).
Variable send_file : str -> IO World unit.
Variable logging_error : str -> World -> World.

Let upload := upload_file World now_strftime os_makedirs json_dump_to
                logging_error.
Let download := download_results World os_listdir send_file logging_error.

(** X14: What [download_results] answers, from what the listing of [uploads]
    gives.  When the listing raises, the error text is logged and returned.
    When no name starts with [analysis_result_], the answer is "No analysis
    results found", whatever the format asked for.  Otherwise a format other
    than [json] is refused, and for [json] the file sent is, among the names
    that start with [analysis_result_], one that no other exceeds in the
    order of strings; if sending raises, the error text is logged and
    returned. *)
Theorem download_results_outcome (format : str) (w : World) :
  match os_listdir UPLOAD_FOLDER w with
  | (w1, inl e) =>
      download format w =
        (logging_error
           (list_ascii_of_string "Error downloading results: " ++ e) w1,
         json_error e)
  | (w1, inr names) =>
      let stored :=
        List.filter
          (fun f => startswith f (list_ascii_of_string "analysis_result_"))
          names in
      match max_str stored with
      | None =>
          stored = []
          ∧ download format w =
              (w1, json_error (list_ascii_of_string "No analysis results found"))
      | Some latest =>
          let path := list_ascii_of_string "uploads/" ++ latest in
          latest ∈ names
          ∧ startswith latest (list_ascii_of_string "analysis_result_") = true
          ∧ (∀ x, x ∈ names ->
               startswith x (list_ascii_of_string "analysis_result_") = true ->
               str_ltb latest x = false)
          ∧ if decide (format = list_ascii_of_string "json") then
              match send_file path w1 with
              | (w2, inr _) => download format w = (w2, file_response path)
              | (w2, inl e) =>
                  download format w =
                    (logging_error
                       (list_ascii_of_string "Error downloading results: "
                          ++ e) w2,
                     json_error e)
              end
            else
              download format w =
                (w1, json_error (list_ascii_of_string "Invalid format requested"))
      end
  end.
Proof.
  unfold download, download_results, download_body, io_bind, io_ret.
  destruct (os_listdir UPLOAD_FOLDER w) as [w1 [e|names]]; [reflexivity|].
  cbv zeta.
  set (stored := List.filter _ names).
  destruct (max_str stored) as [latest|] eqn:M.
  - destruct (max_str_spec _ _ M) as [Hin Hmax].
    apply filter_startswith_elem in Hin as [Hin Hp].
    split; [exact Hin|]. split; [exact Hp|]. split.
    { intros x Hx Hpx. apply Hmax. by apply filter_startswith_elem. }
    destruct stored as [|x l] eqn:S; [done|].
    rewrite (path_join_result _ Hp).
    destruct (decide (format = list_ascii_of_string "json")) as [->|Hf].
    + rewrite bool_decide_eq_true_2 by done.
      by destruct (send_file _ w1) as [w2 [e|[]]].
    + by rewrite bool_decide_eq_false_2.
  - destruct stored; [by split|done].
Qed.


(** X16: A request that is refused is refused before anything is done: without
    the field [file] the answer is "No file part", with an empty file name
    "No selected file", and with a name that has no extension or another
    extension than [log] and [txt] "Invalid file type"; in the three cases
    the world is left as it was: no clock read, nothing written or logged. *)
Theorem upload_rejects_without_effect (files : gmap str FileStorage) (w : World) :
  match files !! list_ascii_of_string "file" with
  | None =>
      upload files w = (w, json_error (list_ascii_of_string "No file part"))
  | Some file =>
      (filename file = [] ->
       upload files w
         = (w, json_error (list_ascii_of_string "No selected file")))
      ∧ (filename file ≠ [] ->
         (∀ ext, has_extension (filename file) ext ->
                 ¬ (icase_eq ext "log"%string ∨ icase_eq ext "txt"%string)) ->
         upload files w
           = (w, json_error (list_ascii_of_string "Invalid file type")))
  end.
Proof.
  unfold upload, upload_file.
  destruct (files !! list_ascii_of_string "file") as [file|]; [|reflexivity].
  split.
  - intros ->. reflexivity.
  - intros Hne Hno. rewrite bool_decide_eq_false_2 by done.
    destruct (allowed_file_total (filename file)) as [b A].
    rewrite A. destruct b; [|reflexivity].
    apply allowed_file_true_iff in A as (ext & Hext & Hcase).
    by destruct (Hno ext Hext).
Qed.

End HandlerFacts.

(** ** The handlers at concrete inputs *)


Lemma download_results_outcome_witness :
  download_results unit
    (fun _ w => (w, inr [list_ascii_of_string "analysis_result_20240131_235959.json";
                         list_ascii_of_string "notes.txt";
                         list_ascii_of_string "analysis_result_20240201_000000.json"]))
    (fun _ w => (w, inr tt)) (fun _ w => w)
    (list_ascii_of_string "json") tt
  = (tt, file_response
           (list_ascii_of_string
              "uploads/analysis_result_20240201_000000.json")).
Proof.
  pose proof (download_results_outcome unit
    (fun _ w => (w, inr [list_ascii_of_string "analysis_result_20240131_235959.json";
                         list_ascii_of_string "notes.txt";
                         list_ascii_of_string "analysis_result_20240201_000000.json"]))
    (fun _ w => (w, inr tt)) (fun _ w => w)
    (list_ascii_of_string "json") tt) as H.
  cbv beta iota zeta in H.
  change (max_str _) with
    (Some (list_ascii_of_string "analysis_result_20240201_000000.json")) in H.
  cbv beta iota zeta in H. destruct H as (_ & _ & _ & H).
  rewrite decide_True in H by reflexivity. exact H.
Defined.

Lemma upload_rejects_without_effect_witness :
  let files : gmap str FileStorage :=
    {[ list_ascii_of_string "file" :=
         {| filename := list_ascii_of_string "dump.log.exe"; stream := [] |} ]} in
  upload_file unit (fun w => (w, [])) (fun _ w => (w, inr tt))
    (fun _ _ w => (w, inr tt)) (fun _ w => w) files tt
  = (tt, json_error (list_ascii_of_string "Invalid file type")).
Proof.
  cbv zeta.
  set (files := ({[ list_ascii_of_string "file" :=
         {| filename := list_ascii_of_string "dump.log.exe"; stream := [] |} ]}
        : gmap str FileStorage)).
  pose proof (upload_rejects_without_effect unit (fun w => (w, []))
                (fun _ w => (w, inr tt)) (fun _ _ w => (w, inr tt))
                (fun _ w => w) files tt) as H.
  change (files !! list_ascii_of_string "file") with
    (Some {| filename := list_ascii_of_string "dump.log.exe";
             stream := [] |}) in H.
  destruct H as [_ H]. apply H; [done|].
  intros ext (base & E & Hdot) [Hc|Hc].
  - assert (R := rpartition_last "." ext Hdot base). simpl in E.
    rewrite <- E in R. vm_compute in R. injection R as _ <-.
    vm_compute in Hc. discriminate.
  - assert (R := rpartition_last "." ext Hdot base). simpl in E.
    rewrite <- E in R. vm_compute in R. injection R as _ <-.
    vm_compute in Hc. discriminate.
Defined.

(** ** White space at the beginning of a line *)

Lemma segment_after_leading line ws pre m post :
  all_space ws -> starts_nonspace m ->
  ws ++ line = pre ++ m ++ post ->
  ∃ pre', pre = ws ++ pre' ∧ line = pre' ++ m ++ post.
Proof.
  intros Hws (c & m' & -> & Hc) E.
  apply app_eq_app in E as [t [[E1 E2]|[E1 E2]]].
  - destruct t as [|x t].
    + exists []. rewrite app_nil_r in *. simpl in *. by split.
    + exfalso. simpl in E2. injection E2 as <- _.
      assert (is_space c = true); [|congruence].
      apply (all_space_elem ws); [exact Hws|]. rewrite E1.
      apply elem_of_app. right. by left.
  - exists t. by split.
Qed.

Lemma icase_eq_starts_nonspace m w :
  icase_eq m w -> starts_nonspace w -> starts_nonspace m.
Proof.
  unfold icase_eq. intros E (c & w' & -> & Hc).
  destruct m as [|x m]; [discriminate|].
  exists x, m. split; [reflexivity|]. simpl in E. injection E as E _.
  by rewrite <- is_space_lower, E, is_space_lower.
Qed.

Lemma contains_icase_leading line ws w :
  all_space ws -> starts_nonspace w ->
  contains_icase (ws ++ line) w <-> contains_icase line w.
Proof.
  intros Hws Hw. unfold contains_icase. split.
  - intros (pre & m & post & E & Hm).
    destruct (segment_after_leading _ _ _ _ _ Hws
                (icase_eq_starts_nonspace _ _ Hm Hw) E) as (pre' & _ & ->).
    eauto.
  - intros (pre & m & post & -> & Hm).
    exists (ws ++ pre), m, post. split; [|exact Hm].
    by rewrite <- !app_assoc.
Qed.

Lemma matches_words_leading (words : list string) line ws :
  words ≠ [] ->
  (∀ w : string, w ∈ words -> starts_nonspace w) ->
  all_space ws ->
  matches true (alts (map (fun w : string => lit w) words)) (ws ++ line)
  = matches true (alts (map (fun w : string => lit w) words)) line.
Proof.
  intros Hne Hall Hws. apply bool_eq_iff.
  rewrite !matches_words by done. split.
  - intros (w & Hin & H). exists w. split; [exact Hin|].
    by apply (contains_icase_leading line ws w Hws (Hall w Hin)).
  - intros (w & Hin & H). exists w. split; [exact Hin|].
    by apply (contains_icase_leading line ws w Hws (Hall w Hin)).
Qed.

Lemma starts_nonspace_word (s : string) (c : ascii) (w' : str) :
  list_ascii_of_string s = c :: w' -> is_space c = false ->
  starts_nonspace (list_ascii_of_string s).
Proof. intros -> H. by exists c, w'. Qed.

Lemma xss_words_start_nonspace (w : string) :
  w ∈ xss_words -> starts_nonspace w.
Proof.
  unfold xss_words. intros H.
  repeat (apply elem_of_cons in H as [->|H]); [..|inversion H];
    by eapply starts_nonspace_word.
Qed.

Lemma brute_words_start_nonspace (w : string) :
  w ∈ brute_words -> starts_nonspace w.
Proof.
  unfold brute_words. intros H.
  repeat (apply elem_of_cons in H as [->|H]); [..|inversion H];
    by eapply starts_nonspace_word.
Qed.

Lemma sql_spec_leading line ws :
  all_space ws -> sql_spec (ws ++ line) <-> sql_spec line.
Proof.
  intros Hws.
  assert (Hsel : starts_nonspace (list_ascii_of_string "select"))
    by (by eapply starts_nonspace_word).
  assert (Huni : starts_nonspace (list_ascii_of_string "union"))
    by (by eapply starts_nonspace_word).
  assert (Hdrop : starts_nonspace (list_ascii_of_string "drop"))
    by (by eapply starts_nonspace_word).
  assert (Hdash : starts_nonspace (list_ascii_of_string "--"))
    by (by eapply starts_nonspace_word).
  assert (WS : ∀ w1 w2, starts_nonspace w1 ->
            words_spaced w1 w2 (ws ++ line) <-> words_spaced w1 w2 line).
  { intros w1 w2 Hw1. unfold words_spaced. split.
    - intros (pre & m1 & sp & m2 & post & E & H1 & H2 & H3 & H4).
      destruct (segment_after_leading _ _ _ _ _ Hws
                  (icase_eq_starts_nonspace _ _ H1 Hw1) E) as (pre' & _ & ->).
      exists pre', m1, sp, m2, post. auto.
    - intros (pre & m1 & sp & m2 & post & -> & H).
      exists (ws ++ pre), m1, sp, m2, post. rewrite <- !app_assoc. auto. }
  assert (WB : ∀ w1 w2, starts_nonspace w1 ->
            word_before w1 w2 (ws ++ line) <-> word_before w1 w2 line).
  { intros w1 w2 Hw1. unfold word_before. split.
    - intros (pre & m1 & mid & m2 & post & E & H1 & H2 & H4).
      destruct (segment_after_leading _ _ _ _ _ Hws
                  (icase_eq_starts_nonspace _ _ H1 Hw1) E) as (pre' & _ & ->).
      exists pre', m1, mid, m2, post. auto.
    - intros (pre & m1 & mid & m2 & post & -> & H).
      exists (ws ++ pre), m1, mid, m2, post. rewrite <- !app_assoc. auto. }
  assert (EC : ends_with_comment (ws ++ line) <-> ends_with_comment line).
  { unfold ends_with_comment. split.
    - intros (pre & ws2 & E & H).
      destruct (segment_after_leading _ _ _ _ _ Hws Hdash E)
        as (pre' & _ & ->).
      eauto.
    - intros (pre & ws0 & -> & H).
      exists (ws ++ pre), ws0. rewrite <- !app_assoc. auto. }
  unfold sql_spec. rewrite !WS, WB, EC by assumption. reflexivity.
Qed.

Lemma strip_leading line ws : all_space ws -> strip (ws ++ line) = strip line.
Proof. intros Hws. unfold strip. by rewrite lstrip_all_space. Qed.

Lemma ip_shape_starts_nonspace m : ip_shape m -> starts_nonspace m.
Proof.
  intros (g1 & g2 & g3 & g4 & -> & [Hl Hd] & _).
  destruct g1 as [|c g1]; [simpl in Hl; lia|].
  exists c, (g1 ++ "."%char :: g2 ++ "."%char :: g3 ++ "."%char :: g4).
  split; [reflexivity|]. simpl in Hd. apply andb_true_iff in Hd as [Hd _].
  destruct (is_space c) eqn:Hs; [|reflexivity].
  apply is_space_not_word in Hs. apply is_digit_word in Hd. congruence.
Qed.

Lemma delimited_at_leading line ws pre m post :
  all_space ws ->
  delimited_at (ws ++ line) pre m post <->
  ∃ pre', pre = ws ++ pre' ∧ delimited_at line pre' m post.
Proof.
  intros Hws. unfold delimited_at, shaped_at. split.
  - intros ((E & Hs) & Hb & Ha).
    destruct (segment_after_leading _ _ _ _ _ Hws
                (ip_shape_starts_nonspace _ Hs) E) as (pre' & -> & ->).
    exists pre'. repeat split; auto.
    intros c Hc. apply Hb.
    destruct pre' as [|x pre' _] using rev_ind; [done|].
    rewrite app_assoc, last_snoc. by rewrite last_snoc in Hc.
  - intros (pre' & -> & (-> & Hs) & Hb & Ha).
    repeat split; auto; [by rewrite <- !app_assoc|].
    intros c Hc. destruct pre' as [|x pre' _] using rev_ind.
    + rewrite app_nil_r in Hc.
      apply is_space_not_word, (all_space_elem ws); [exact Hws|].
      apply last_Some in Hc as (l' & ->). apply elem_of_app. right. by left.
    + rewrite app_assoc, last_snoc in Hc. apply Hb. by rewrite last_snoc.
Qed.

Lemma extract_ip_leading line ws :
  all_space ws -> extract_ip (ws ++ line) = extract_ip line.
Proof.
  intros Hws.
  destruct (extract_ip line) as [ip|] eqn:E.
  - destruct (extract_ip_Some _ _ E) as (pre & post & Hd & Hmin).
    assert (Hd' : delimited_at (ws ++ line) (ws ++ pre) ip post)
      by (apply delimited_at_leading; eauto).
    destruct (extract_ip (ws ++ line)) as [ip'|] eqn:E'.
    + f_equal.
      destruct (extract_ip_Some _ _ E') as (pre' & post' & Hd2 & Hmin').
      pose proof (Hmin' _ _ _ Hd') as L1.
      apply delimited_at_leading in Hd2 as (q & -> & Hd2); [|exact Hws].
      pose proof (Hmin _ _ _ Hd2) as L2.
      rewrite !length_app in L1.
      assert (q = pre) as ->.
      { destruct Hd as ((El & _) & _). destruct Hd2 as ((El2 & _) & _).
        rewrite El in El2. symmetry.
        by apply app_inj_1 in El2 as [? _]; [|lia]. }
      by destruct (delimited_at_unique _ _ _ _ _ _ Hd2 Hd).
    + exfalso. by apply (extract_ip_None _ E' _ _ _ Hd').
  - destruct (extract_ip (ws ++ line)) as [ip'|] eqn:E'; [|reflexivity].
    exfalso.
    destruct (extract_ip_Some _ _ E') as (pre' & post' & Hd2 & _).
    apply delimited_at_leading in Hd2 as (q & -> & Hd2); [|exact Hws].
    by apply (extract_ip_None _ E _ _ _ Hd2).
Qed.

Lemma analyze_line_leading s line ws n :
  all_space ws -> analyze_line s (ws ++ line) n = analyze_line s line n.
Proof.
  intros Hws. apply analyze_line_same_view.
  - by apply extract_ip_leading.
  - apply bool_eq_iff. rewrite !sql_matches_spec.
    by apply sql_spec_leading.
  - apply matches_words_leading;
      [done|apply xss_words_start_nonspace|exact Hws].
  - apply matches_words_leading;
      [done|apply brute_words_start_nonspace|exact Hws].
  - by apply strip_leading.
Qed.

(** X17: A call of [analyze_line] sees only the stripped line: the indentation of
    a line and the white space after it change neither the address found,
    nor the categories matched, nor the events recorded.  In particular the
    result for a line is the result for its stripped text, and stripping is
    idempotent. *)
Theorem only_the_stripped_line_matters :
  (∀ s line n, analyze_line s line n = analyze_line s (strip line) n)
  ∧ (∀ s ws1 line ws2 n,
       all_space ws1 -> all_space ws2 ->
       analyze_line s (ws1 ++ line ++ ws2) n = analyze_line s line n)
  ∧ (∀ line, strip (strip line) = strip line).
Proof.
  assert (Both : ∀ s ws1 line ws2 n,
    all_space ws1 -> all_space ws2 ->
    analyze_line s (ws1 ++ line ++ ws2) n = analyze_line s line n).
  { intros s ws1 line ws2 n H1 H2.
    by rewrite analyze_line_leading, analyze_line_trailing. }
  split; [|split; [exact Both|]].
  - intros s line n.
    destruct (strip_spec line) as (l & r & E & Hl & Hr & _).
    rewrite E at 1. by apply Both.
  - intros line.
    destruct (strip_spec line) as (l & r & E & Hl & Hr & _).
    rewrite E at 2. by rewrite strip_leading, strip_trailing.
Qed.

Lemma only_the_stripped_line_matters_witness :
  analyze_line __init__
    (list_ascii_of_string "   Failed login from 192.168.1.20  ") 9
  = analyze_line __init__
      (list_ascii_of_string "Failed login from 192.168.1.20") 9.
Proof.
  rewrite (proj1 only_the_stripped_line_matters). reflexivity.
Defined.

(** ** The case of the letters *)












(** ** An upload followed by a download *)

Lemma str_ltb_antisym : ∀ a b,
  str_ltb a b = false -> str_ltb b a = false -> a = b.
Proof.
  induction a as [|x a IH]; intros [|y b]; simpl; try done.
  destruct (N.ltb_spec (ord x) (ord y)); [done|].
  destruct (N.ltb_spec (ord y) (ord x)); [done|].
  intros H1 H2. assert (x = y) as ->.
  { unfold ord in *.
    rewrite <- (ascii_N_embedding x), <- (ascii_N_embedding y).
    f_equal. lia. }
  f_equal. by apply IH.
Qed.

Section RoundTrip.
Variable World : Type.
Variable now_strftime : World -> World * str.
Variable os_makedirs : str -> IO World unit.
Variable json_dump_to : str -> Report -> IO World unit.
Variable os_listdir : str -> IO World (list str).
Variable send_file : str -> IO World unit.
Variable logging_error : str -> World -> World.

(** X19: After an upload answered with results, a download of format [json]
    sends the file that this upload wrote, provided the listing of [uploads]
    shows that file, no stored result has a greater name, and sending it
    succeeds. *)
Theorem download_after_upload
    (files : gmap str FileStorage) (w w1 w2 w3 : World)
    (results : Report) (names : list str) :
  upload_file World now_strftime os_makedirs json_dump_to logging_error
    files w = (w1, json_results results) ->
  os_listdir UPLOAD_FOLDER w1 = (w2, inr names) ->
  let written := result_name (snd (now_strftime w)) in
  written ∈ names ->
  (∀ x, x ∈ names ->
     startswith x (list_ascii_of_string "analysis_result_") = true ->
     str_ltb written x = false) ->
  send_file (list_ascii_of_string "uploads/" ++ written) w2 = (w3, inr tt) ->
  download_results World os_listdir send_file logging_error
    (list_ascii_of_string "json") w1
  = (w3, file_response (list_ascii_of_string "uploads/" ++ written))
  ∧ ∃ w', json_dump_to (list_ascii_of_string "uploads/" ++ written)
            results w' = (w1, inr tt).
Proof.
  intros Hup Hls written Hin Hmax Hsend.
  assert (Hp : startswith written (list_ascii_of_string "analysis_result_")
               = true).
  { apply startswith_spec. unfold written, result_name. eauto. }
  split.
  - unfold download_results, download_body, io_bind, io_ret.
    rewrite Hls.
    set (stored := List.filter _ names).
    assert (Hs : written ∈ stored) by (by apply filter_startswith_elem).
    destruct (max_str stored) as [latest|] eqn:M;
      [|destruct stored; [inversion Hs|done]].
    destruct (max_str_spec _ _ M) as [Hl Hge].
    assert (latest = written) as ->.
    { apply str_ltb_antisym; [by apply Hge|].
      apply filter_startswith_elem in Hl as [Hl1 Hl2]. by apply Hmax. }
    destruct stored; [inversion Hs|].
    rewrite bool_decide_eq_true_2 by done.
    rewrite (path_join_result _ Hp), Hsend. reflexivity.
  - unfold upload_file in Hup.
    destruct (files !! list_ascii_of_string "file") as [file|]; [|done].
    destruct (bool_decide (filename file = [])); [done|].
    destruct (allowed_file (filename file)) as [[]|]; try done.
    unfold upload_body, io_bind, io_ret in Hup.
    unfold written. destruct (now_strftime w) as [w0 t]. simpl.
    rewrite (path_join_result
               (list_ascii_of_string "analysis_result_" ++ t
                  ++ list_ascii_of_string ".json")) in Hup
      by (apply startswith_spec; eauto).
    destruct (os_makedirs UPLOAD_FOLDER w0) as [w4 [e|[]]]; [done|].
    destruct (json_dump_to _ _ w4) as [w5 [e|[]]] eqn:D; [done|].
    injection Hup as <- <-. exists w4. exact D.
Qed.

End RoundTrip.

Lemma download_after_upload_witness :
  let names := [list_ascii_of_string "analysis_result_20240131_235959.json";
                list_ascii_of_string "analysis_result_20240201_101500.json"] in
  download_results unit (fun _ w => (w, inr names)) (fun _ w => (w, inr tt))
    (fun _ w => w) (list_ascii_of_string "json") tt
  = (tt, file_response
           (list_ascii_of_string
              "uploads/analysis_result_20240201_101500.json")).
Proof.
  cbv zeta.
  set (names := [list_ascii_of_string "analysis_result_20240131_235959.json";
                 list_ascii_of_string "analysis_result_20240201_101500.json"]).
  set (files := ({[ list_ascii_of_string "file" :=
         {| filename := list_ascii_of_string "a.txt"; stream := [] |} ]}
        : gmap str FileStorage)).
  refine (proj1 (download_after_upload unit
            (fun w => (w, list_ascii_of_string "20240201_101500"))
            (fun _ w => (w, inr tt)) (fun _ _ w => (w, inr tt))
            (fun _ w => (w, inr names)) (fun _ w => (w, inr tt))
            (fun _ w => w) files tt tt tt tt (run []) names _ _ _ _ _)).
  - vm_compute. reflexivity.
  - reflexivity.
  - right. left.
  - intros x Hx _. unfold names in Hx.
    repeat (apply elem_of_cons in Hx as [->|Hx]); [reflexivity..|inversion Hx].
  - reflexivity.
Defined.

(** ** The latch counts over the whole stream *)

Example ddos_is_counted_over_the_whole_stream :
  let f := repeat (list_ascii_of_string "ping from 203.0.113.9") 60 in
  r_ddos (run f) = [] ∧ length (r_ddos (run (f ++ f))) = 1%nat.
Proof. vm_compute. split; reflexivity. Qed.
